(** * weasyprint.text: line splitting on top of a text-shaping engine

    A shallow embedding of [weasyprint/text.py].  The module drives an
    external shaping engine (Pango): it builds layouts with
    [create_temp_layout], reconciles the engine's line breaks with the
    wanted white-space handling in [create_layout], and reads the first
    line back in [split_first_line].

    Unicode text is a list of code points; byte offsets are offsets into
    its UTF-8 encoding, exactly as the engine reports them.  The engine
    itself is a parameter of the development. *)

From Stdlib Require Import String Ascii DecimalString.
From Stdlib Require Import List ZArith NArith QArith Lia Bool Arith PeanoNat.
Import ListNotations.

Set Implicit Arguments.

(* ------------------------------------------------------------------ *)
(** * Unicode strings and their UTF-8 encoding *)

Module Utf8.

(** A code point of a Python [unicode] object. *)
Definition codepoint := N.
Definition text := list codepoint.
Definition bytes := list N.

Open Scope N_scope.

Definition valid_codepoint (c : codepoint) : Prop := c < 0x110000.
Definition valid_text (t : text) : Prop := Forall valid_codepoint t.

(** [unicode.encode('utf-8')] on one code point. *)
Definition encode_char (c : codepoint) : bytes :=
  if c <? 0x80 then [c]
  else if c <? 0x800 then [0xC0 + c / 64; 0x80 + c mod 64]
  else if c <? 0x10000 then
    [0xE0 + c / 4096; 0x80 + (c / 64) mod 64; 0x80 + c mod 64]
  else
    [0xF0 + c / 262144; 0x80 + (c / 4096) mod 64;
     0x80 + (c / 64) mod 64; 0x80 + c mod 64].

Fixpoint encode (t : text) : bytes :=
  match t with
  | [] => []
  | c :: t' => encode_char c ++ encode t'
  end.

(** Continuation byte [10xxxxxx]. *)
Definition is_cont (b : N) : bool := (0x80 <=? b) && (b <? 0xC0).

(** [str.decode('utf-8')] with the default strict error handling: [None]
    stands for [UnicodeDecodeError].  Overlong forms and values above
    U+10FFFF are rejected. *)
Fixpoint decode (bs : bytes) : option text :=
  match bs with
  | [] => Some []
  | b0 :: r0 =>
    if b0 <? 0x80 then option_map (cons b0) (decode r0)
    else if b0 <? 0xC2 then None
    else if b0 <? 0xE0 then
      match r0 with
      | b1 :: r1 =>
        if is_cont b1
        then option_map (cons ((b0 - 0xC0) * 64 + (b1 - 0x80))) (decode r1)
        else None
      | _ => None
      end
    else if b0 <? 0xF0 then
      match r0 with
      | b1 :: b2 :: r2 =>
        let c := (b0 - 0xE0) * 4096 + (b1 - 0x80) * 64 + (b2 - 0x80) in
        if is_cont b1 && is_cont b2 && (0x800 <=? c)
        then option_map (cons c) (decode r2)
        else None
      | _ => None
      end
    else if b0 <? 0xF5 then
      match r0 with
      | b1 :: b2 :: b3 :: r3 =>
        let c := (b0 - 0xF0) * 262144 + (b1 - 0x80) * 4096
                 + (b2 - 0x80) * 64 + (b3 - 0x80) in
        if is_cont b1 && is_cont b2 && is_cont b3
           && (0x10000 <=? c) && (c <? 0x110000)
        then option_map (cons c) (decode r3)
        else None
      | _ => None
      end
    else None
  end.

Close Scope N_scope.

(** Number of UTF-8 bytes of a text: [len(text.encode('utf-8'))]. *)
Definition byte_length (t : text) : nat := length (encode t).

(** [text.encode('utf-8')[:n].decode('utf-8')] *)
Definition bytes_prefix (t : text) (n : nat) : option text :=
  decode (firstn n (encode t)).

(** [text.encode('utf-8')[n:].decode('utf-8')] *)
Definition bytes_suffix (t : text) (n : nat) : option text :=
  decode (skipn n (encode t)).

End Utf8.

Import Utf8.

(** Text literals of the source, as code points. *)
Definition text_of_string (s : string) : text :=
  map N_of_ascii (list_ascii_of_string s).

Definition space : codepoint := 32%N.
Definition newline : text := [10%N].

(** [len(text)]: number of code points. *)
Definition len (t : text) : Z := Z.of_nat (List.length t).

(** [text.rstrip(' ')] *)
Fixpoint rstrip (t : text) : text :=
  match t with
  | [] => []
  | c :: t' =>
    match rstrip t' with
    | [] => if N.eqb c space then [] else [c]
    | r => c :: r
    end
  end.

(** [sep.join(parts)] *)
Fixpoint join (sep : text) (parts : list text) : text :=
  match parts with
  | [] => []
  | [p] => p
  | p :: rest => p ++ sep ++ join sep rest
  end.

(** [text.replace(' ', by)] *)
Definition replace_space (by_ : text) (t : text) : text :=
  flat_map (fun c => if N.eqb c space then by_ else [c]) t.

(** [cgi.escape(text)] (without quote escaping). *)
Definition escape (t : text) : text :=
  flat_map (fun c =>
    if N.eqb c 38 then text_of_string "&amp;"
    else if N.eqb c 60 then text_of_string "&lt;"
    else if N.eqb c 62 then text_of_string "&gt;"
    else [c]) t.

(** ['%i' % n] *)
Definition format_int (n : Z) : text :=
  text_of_string (DecimalString.NilZero.string_of_int (Z.to_int n)).

(* ------------------------------------------------------------------ *)
(** * Exceptions *)

Inductive exn : Type :=
  | AssertionError
  | KeyError
  | GError               (* raised by the engine's markup parser *)
  | UnicodeDecodeError
  | IndexError.

Inductive result (A : Type) : Type :=
  | Ok (a : A)
  | Raise (e : exn).
Arguments Ok {A} a.
Arguments Raise {A} e.

Definition bind {A B} (r : result A) (k : A -> result B) : result B :=
  match r with
  | Ok a => k a
  | Raise e => Raise e
  end.

Declare Scope py_scope.
Delimit Scope py_scope with py.
Notation "x <- r ;; k" := (bind r (fun x => k))
  (at level 61, r at next level, right associativity) : py_scope.
Notation "' pat <- r ;; k" := (bind r (fun pat => k))
  (at level 61, pat pattern, r at next level, right associativity) : py_scope.
Open Scope py_scope.

Definition decoded (o : option text) : result text :=
  match o with
  | Some t => Ok t
  | None => Raise UnicodeDecodeError
  end.

(** A dictionary with string keys; a missing key raises [KeyError]. *)
Fixpoint getitem {V} (d : list (string * V)) (k : string) : result V :=
  match d with
  | [] => Raise KeyError
  | (k', v) :: d' => if String.eqb k k' then Ok v else getitem d' k
  end.

(* ------------------------------------------------------------------ *)
(** * Numbers: style lengths are rationals, engine units are integers *)

Definition PANGO_SCALE : Z := 1024.

(** [int(value * Pango.SCALE)]: truncation towards zero. *)
Definition units_from_double (value : Q) : Z :=
  Z.quot (Qnum value * PANGO_SCALE) (Zpos (Qden value)).

(** [value / Pango.SCALE], true division.  The quotient is a double in
    the source and a rational here: the two agree while the division is
    exact, that is for [|value| <= 2^53]. *)
Definition units_to_double (value : Z) : Q :=
  Qmake value 1024.

Definition Qlt_bool (x y : Q) : bool :=
  (Qnum x * Zpos (Qden y) <? Qnum y * Zpos (Qden x))%Z.

Definition Qis_zero (x : Q) : bool := (Qnum x =? 0)%Z.

(** Python truth value of [max_width]: [None] and [0] are false. *)
Definition truthy_width (max_width : option Q) : bool :=
  match max_width with
  | None => false
  | Some w => negb (Qis_zero w)
  end.

(* ------------------------------------------------------------------ *)
(** * Styles and the engine's constants *)

Inductive PangoVariant := VARIANT_NORMAL | VARIANT_SMALL_CAPS.
Inductive PangoStyle := STYLE_NORMAL | STYLE_ITALIC | STYLE_OBLIQUE.
Inductive PangoStretch :=
  | STRETCH_ULTRA_CONDENSED | STRETCH_EXTRA_CONDENSED | STRETCH_CONDENSED
  | STRETCH_SEMI_CONDENSED | STRETCH_NORMAL | STRETCH_SEMI_EXPANDED
  | STRETCH_EXPANDED | STRETCH_EXTRA_EXPANDED | STRETCH_ULTRA_EXPANDED.
Inductive PangoWrap := WRAP_WORD | WRAP_CHAR | WRAP_WORD_CHAR.

Definition PANGO_VARIANT : list (string * PangoVariant) :=
  [("normal", VARIANT_NORMAL); ("small-caps", VARIANT_SMALL_CAPS)]%string.

Definition PANGO_STYLE : list (string * PangoStyle) :=
  [("normal", STYLE_NORMAL); ("italic", STYLE_ITALIC);
   ("oblique", STYLE_OBLIQUE)]%string.

Definition PANGO_STRETCH : list (string * PangoStretch) :=
  [("ultra-condensed", STRETCH_ULTRA_CONDENSED);
   ("extra-condensed", STRETCH_EXTRA_CONDENSED);
   ("condensed", STRETCH_CONDENSED);
   ("semi-condensed", STRETCH_SEMI_CONDENSED);
   ("normal", STRETCH_NORMAL);
   ("semi-expanded", STRETCH_SEMI_EXPANDED);
   ("expanded", STRETCH_EXPANDED);
   ("extra-expanded", STRETCH_EXTRA_EXPANDED);
   ("ultra-expanded", STRETCH_ULTRA_EXPANDED)]%string.

Definition PANGO_WRAP_WORD : PangoWrap := WRAP_WORD.

(** [style.font_family] must be a list; a bare string trips the
    assertion of [create_temp_layout]. *)
Inductive FontFamily :=
  | FamilyString (s : string)
  | FamilyList (l : list string).

(** [style.letter_spacing] is a number or the keyword ['normal']. *)
Inductive LetterSpacing :=
  | SpacingNormal
  | SpacingLength (q : Q).

Record StyleDict := {
  font_family : FontFamily;
  font_variant : string;
  font_style : string;
  font_stretch : string;
  font_size : Q;
  font_weight : Z;
  word_spacing : Q;
  letter_spacing : LetterSpacing
}.

(* ------------------------------------------------------------------ *)
(** * Layouts and the shaping engine *)

Record FontDescription := {
  fd_family : string;
  fd_variant : PangoVariant;
  fd_style : PangoStyle;
  fd_stretch : PangoStretch;
  fd_absolute_size : Z;
  fd_weight : Z
}.

(** One attribute of a parsed markup: a letter spacing over a byte range. *)
Record Attribute := {
  attr_start : nat;
  attr_end : nat;
  attr_letter_spacing : Z
}.
Definition AttrList := list Attribute.

(** A layout object as [create_temp_layout] configures it.  [lay_width]
    is [None] while [set_width] was not called: unconstrained width. *)
Record Layout := {
  lay_hinted : bool;
  lay_font : FontDescription;
  lay_wrap : PangoWrap;
  lay_text : text;
  lay_width : option Z;
  lay_attributes : option AttrList
}.

(** A line of a shaped layout: offsets in UTF-8 bytes, logical extents
    in engine units. *)
Record Line := {
  start_index : nat;
  line_length : nat;
  logical_width : Z;
  logical_height : Z
}.

(** What the module consumes from the shaping engine.  A layout always
    has a first line; [rest_lines] are the lines after it. *)
Record Engine := {
  parse_markup : text -> option AttrList;
  first_line_of : Layout -> Line;
  rest_lines : Layout -> list Line;
  get_baseline : Layout -> Z
}.

Definition get_line_count (E : Engine) (layout : Layout) : nat :=
  S (List.length (rest_lines E layout)).

Definition get_size (line : Line) : Q * Q :=
  (units_to_double (logical_width line), units_to_double (logical_height line)).

(* ------------------------------------------------------------------ *)
(** * The module's functions *)

Section Text.

Variable E : Engine.

(** ['<span letter_spacing="%i">%s</span>' % (spacing, inner)] *)
Definition span (spacing : Z) (inner : text) : text :=
  text_of_string "<span letter_spacing=" ++ [34%N] ++ format_int spacing
  ++ [34%N] ++ text_of_string ">" ++ inner ++ text_of_string "</span>".

Definition is_empty (t : text) : bool :=
  match t with [] => true | _ => false end.

(** [create_temp_layout(text, style, hinting, max_width)].  [lay_width]
    records the argument of [layout.set_width], a C integer in the
    source: the guard keeps it below [2^31], and it is at least [-2^31]
    for a [max_width] of at least [-2^21]. *)
Definition create_temp_layout (txt : text) (style : StyleDict)
    (hinting : bool) (max_width : option Q) : result Layout :=
  families <- match font_family style with
              | FamilyString _ => Raise AssertionError
              | FamilyList l => Ok l
              end ;;
  variant <- getitem PANGO_VARIANT (font_variant style) ;;
  slant <- getitem PANGO_STYLE (font_style style) ;;
  stretch <- getitem PANGO_STRETCH (font_stretch style) ;;
  let font :=
    {| fd_family := String.concat "," families;
       fd_variant := variant;
       fd_style := slant;
       fd_stretch := stretch;
       fd_absolute_size := units_from_double (font_size style);
       fd_weight := font_weight style |} in
  (* Make sure that max_width * Pango.SCALE fits in a signed integer.
     Treat bigger values same as None: unconstrained width. *)
  let width :=
    match max_width with
    | Some w =>
      if Qlt_bool w (inject_Z (2 ^ 21)) then Some (units_from_double w)
      else None
    | None => None
    end in
  let word_spacing := word_spacing style in
  let letter_spacing :=
    match letter_spacing style with
    | SpacingNormal => 0%Q
    | SpacingLength q => q
    end in
  attributes <-
    (if negb (is_empty txt)
        && (negb (Qis_zero word_spacing) || negb (Qis_zero letter_spacing))
     then
       let word_spacing := units_from_double word_spacing in
       let letter_spacing := units_from_double letter_spacing in
       let markup :=
         replace_space (span (word_spacing + letter_spacing) [space])
                       (escape txt) in
       let markup := span letter_spacing markup in
       match parse_markup E markup with
       | Some attributes_list => Ok (Some attributes_list)
       | None => Raise GError
       end
     else Ok None) ;;
  Ok {| lay_hinted := hinting;
        lay_font := font;
        lay_wrap := PANGO_WRAP_WORD;
        lay_text := txt;
        lay_width := width;
        lay_attributes := attributes |}.

(** The accumulators of the loop of [create_layout], with the text that
    remains to be laid out. *)
Record LoopState := {
  text_ : text;
  lines : list text;
  character_differences : list Z;
  line_break_differences : list Z
}.

Inductive Step :=
  | Continue (st : LoopState)     (* back to the [while] test *)
  | Break (st : LoopState).       (* [break] *)

(** [next_word_layout = create_temp_layout(next_text, style, hinting, 0)] *)
Definition next_word_layout (next_text : text) (style : StyleDict)
    (hinting : bool) : result Layout :=
  create_temp_layout next_text style hinting (Some 0%Q).

(** The next word of the text that follows the first line, as the loop
    body reads it: [word_length] and [word_text]. *)
Definition next_word (next_text : text) (style : StyleDict)
    (hinting : bool) : result (nat * text) :=
  nwl <- next_word_layout next_text style hinting ;;
  let word_line := first_line_of E nwl in
  let word_length := line_length word_line in
  word_text <- decoded (bytes_prefix next_text word_length) ;;
  Ok (word_length, word_text).

(** Not in the source: the next word as the specification words it, read
    from a layout built at unlimited width ([None]).  Only used to compare
    with [next_word]. *)
Definition next_word_unconstrained (next_text : text) (style : StyleDict)
    (hinting : bool) : result (nat * text) :=
  layout <- create_temp_layout next_text style hinting None ;;
  let word_length := line_length (first_line_of E layout) in
  word_text <- decoded (bytes_prefix next_text word_length) ;;
  Ok (word_length, word_text).

(** One pass through the body of the [while text:] loop. *)
Definition loop_body (style : StyleDict) (hinting : bool)
    (max_width : option Q) (st : LoopState) : result Step :=
  let txt := text_ st in
  layout <- create_temp_layout txt style hinting max_width ;;
  let first_line := first_line_of E layout in
  (* Try to add a word without its trailing space *)
  let first_line_length := line_length first_line in
  first_line_text <- decoded (bytes_prefix txt first_line_length) ;;
  match rest_lines E layout with
  | second_line :: _ =>                      (* number_of_lines > 1 *)
    if Nat.eqb first_line_length 0 then
      (* Replace the line break character by \n *)
      let character_length := start_index second_line in
      txt' <- decoded (bytes_suffix txt character_length) ;;
      Ok (Continue
        {| text_ := txt';
           lines := lines st ++ [newline];
           character_differences := character_differences st ++ [0%Z];
           line_break_differences :=
             line_break_differences st
             ++ [(Z.of_nat character_length - len newline)%Z] |})
    else
      next_text <- decoded (bytes_suffix txt first_line_length) ;;
      if negb (is_empty next_text) then
        '(word_length, word_text) <- next_word next_text style hinting ;;
        let stripped_word_text := rstrip word_text in
        first_line_layout <-
          create_temp_layout (first_line_text ++ stripped_word_text)
                             style hinting max_width ;;
        if Nat.ltb 1 (get_line_count E first_line_layout) then
          let line_text := rstrip first_line_text in
          Ok (Continue
            {| text_ := next_text;
               lines := lines st ++ [line_text];
               character_differences :=
                 character_differences st
                 ++ [(len line_text - len first_line_text)%Z];
               line_break_differences :=
                 line_break_differences st ++ [0%Z] |})
        else
          Ok (Continue
            {| text_ := skipn (first_line_length + word_length) txt;
               lines := lines st ++ [first_line_text ++ stripped_word_text];
               character_differences :=
                 character_differences st
                 ++ [(len stripped_word_text - len word_text)%Z];
               line_break_differences :=
                 line_break_differences st ++ [0%Z] |})
      else Ok (Continue st)
  | [] =>
    let line_text := first_line_text in
    Ok (Break
      {| text_ := txt;
         lines := lines st ++ [line_text];
         character_differences :=
           character_differences st
           ++ [(len line_text - len first_line_text)%Z];
         line_break_differences := line_break_differences st ++ [0%Z] |})
  end.

(** The [while text:] loop.  [None] means that [fuel] iterations did not
    reach the end of the loop. *)
Fixpoint loop (fuel : nat) (style : StyleDict) (hinting : bool)
    (max_width : option Q) (st : LoopState) : option (result LoopState) :=
  if is_empty (text_ st) then Some (Ok st)
  else
    match fuel with
    | O => None
    | S fuel' =>
      match loop_body style hinting max_width st with
      | Raise e => Some (Raise e)
      | Ok (Break st') => Some (Ok st')
      | Ok (Continue st') => loop fuel' style hinting max_width st'
      end
    end.

Definition initial_state (txt : text) : LoopState :=
  {| text_ := txt; lines := []; character_differences := [];
     line_break_differences := [] |}.

(** [create_layout(text, style, hinting, max_width)] returns the final
    layout with [character_differences] and [line_break_differences]. *)
Definition create_layout (fuel : nat) (txt : text) (style : StyleDict)
    (hinting : bool) (max_width : option Q)
    : option (result (Layout * list Z * list Z)) :=
  if negb (truthy_width max_width) then
    Some (layout <- create_temp_layout txt style hinting max_width ;;
          Ok (layout, [0%Z], [0%Z]))
  else
    match loop fuel style hinting max_width (initial_state txt) with
    | None => None
    | Some (Raise e) => Some (Raise e)
    | Some (Ok st) =>
      Some (layout <- create_temp_layout (join newline (lines st))
                                         style hinting max_width ;;
            Ok (layout, character_differences st, line_break_differences st))
    end.

(** The tuple returned by [split_first_line]. *)
Record FirstLine := {
  fl_layout : Layout;
  fl_length : Z;
  fl_resume_at : option Z;
  fl_width : Q;
  fl_height : Q;
  fl_baseline : Q
}.

(** [seq[i]] on a Python list. *)
Definition getindex {A} (l : list A) (i : nat) : result A :=
  match nth_error l i with
  | Some a => Ok a
  | None => Raise IndexError
  end.

(** [split_first_line(text, style, hinting, max_width)] *)
Definition split_first_line (fuel : nat) (txt : text) (style : StyleDict)
    (hinting : bool) (max_width : option Q) : option (result FirstLine) :=
  match create_layout fuel txt style hinting max_width with
  | None => None
  | Some r =>
    Some ('(layout, char_diff, lb_diff) <- r ;;
          let first_line := first_line_of E layout in
          char_diff0 <- getindex char_diff 0 ;;
          let length := (Z.of_nat (line_length first_line) - char_diff0)%Z in
          let '(width, height) := get_size first_line in
          let baseline := units_to_double (get_baseline E layout) in
          resume_at <-
            (if Nat.leb 2 (get_line_count E layout) then
               match rest_lines E layout with
               | second_line :: _ =>
                 let resume_at := Z.of_nat (start_index second_line) in
                 (* TODO: find why we may have len == 1 *)
                 if Nat.ltb 1 (List.length lb_diff) then
                   d <- getindex lb_diff 1 ;; Ok (Some (resume_at + d)%Z)
                 else Ok (Some resume_at)
               | [] => Raise IndexError
               end
             else Ok None) ;;
          Ok {| fl_layout := layout; fl_length := length;
                fl_resume_at := resume_at; fl_width := width;
                fl_height := height; fl_baseline := baseline |})
  end.

(** [line_widths]: the width of each line of the layout of the text of a
    box, after [skip] characters and leading white space. *)
Definition is_whitespace (c : codepoint) : bool :=
  existsb (N.eqb c)
    [9; 10; 11; 12; 13; 28; 29; 30; 31; 32; 0x85; 0xA0; 0x1680; 0x2000;
     0x2001; 0x2002; 0x2003; 0x2004; 0x2005; 0x2006; 0x2007; 0x2008;
     0x2009; 0x200A; 0x2028; 0x2029; 0x202F; 0x205F; 0x3000]%N.

Fixpoint lstrip (t : text) : text :=
  match t with
  | c :: t' => if is_whitespace c then lstrip t' else t
  | [] => []
  end.

Definition line_widths (fuel : nat) (box_text : text) (box_style : StyleDict)
    (enable_hinting : bool) (width : option Q) (skip : option nat)
    : option (result (list Q)) :=
  let skipped :=
    skipn (match skip with Some n => n | None => 0 end) box_text in
  match create_layout fuel (lstrip skipped) box_style enable_hinting width with
  | None => None
  | Some r =>
    Some ('(layout, _, _) <- r ;;
          Ok (map (fun line => fst (get_size line))
                  (first_line_of E layout :: rest_lines E layout)))
  end.

End Text.

(* ------------------------------------------------------------------ *)
(** * A reference engine

    A small shaping engine with the line-breaking behaviour the module
    relies on: every character advances by the font size, a line feed
    ends a paragraph, lines break after the spaces that follow a word
    (the spaces stay at the end of the line and count in its width), and
    a word that does not fit alone still gets its own line.  It is used
    to run the module's functions on concrete texts. *)

Module Mono.

Definition char_bytes (c : codepoint) : nat := List.length (encode_char c).

(** A word with its trailing spaces: byte length and number of characters. *)
Definition Word := (nat * Z)%type.

(** Cut a paragraph into words; [(bl, w)] is the word being read and [sp]
    tells that its trailing spaces have started. *)
Fixpoint words_from (bl : nat) (w : Z) (sp : bool) (t : text) : list Word :=
  match t with
  | [] => if Nat.eqb bl 0 then [] else [(bl, w)]
  | c :: t' =>
    if N.eqb c space then words_from (bl + char_bytes c) (w + 1) true t'
    else if sp then (bl, w) :: words_from (char_bytes c) 1 false t'
    else words_from (bl + char_bytes c) (w + 1) false t'
  end.

Definition words (t : text) : list Word := words_from 0 0%Z false t.

Definition fits (width : option Z) (advance : Z) (chars : Z) : bool :=
  match width with
  | None => true
  | Some u => (u <? 0)%Z || (chars * advance <=? u)%Z
  end.

Definition mk_line (advance : Z) (start len : nat) (chars : Z) : Line :=
  {| start_index := start; line_length := len;
     logical_width := chars * advance; logical_height := advance |}.

(** Greedy filling of the lines of one paragraph. *)
Fixpoint pack (width : option Z) (advance : Z) (start len : nat) (chars : Z)
    (ws : list Word) : list Line :=
  match ws with
  | [] => [mk_line advance start len chars]
  | (bl, w) :: ws' =>
    if Nat.eqb len 0 || fits width advance (chars + w)
    then pack width advance start (len + bl) (chars + w) ws'
    else mk_line advance start len chars
         :: pack width advance (start + len) bl w ws'
  end.

(** The first paragraph of a text and the paragraphs after it. *)
Fixpoint paragraphs (t : text) : text * list text :=
  match t with
  | [] => ([], [])
  | c :: t' =>
    let (p, ps) := paragraphs t' in
    if N.eqb c 10 then ([], p :: ps) else (c :: p, ps)
  end.

Fixpoint shape_paragraphs (width : option Z) (advance : Z) (start : nat)
    (ps : list text) : list Line :=
  match ps with
  | [] => []
  | p :: ps' =>
    pack width advance start 0 0 (words p)
    ++ shape_paragraphs width advance (start + byte_length p + 1) ps'
  end.

Definition shape (layout : Layout) : list Line :=
  let (p, ps) := paragraphs (lay_text layout) in
  shape_paragraphs (lay_width layout) (fd_absolute_size (lay_font layout))
                   0 (p :: ps).

Definition empty_line : Line :=
  {| start_index := 0; line_length := 0;
     logical_width := 0; logical_height := 0 |}.

Definition engine : Engine :=
  {| parse_markup := fun _ => Some [];
     first_line_of := fun layout => hd empty_line (shape layout);
     rest_lines := fun layout => tl (shape layout);
     get_baseline := fun layout => fd_absolute_size (lay_font layout) |}.

(** Bytes of a list of words, and of the paragraphs after the first
    with the line feeds before them. *)
Definition word_bytes (ws : list Word) : nat :=
  fold_right (fun w acc => (fst w + acc)%nat) 0%nat ws.

Definition paragraph_bytes (ps : list text) : nat :=
  fold_right (fun p acc => (1 + byte_length p + acc)%nat) 0%nat ps.

(** A plain style: 1px sans-serif, no extra spacing. *)
Definition style : StyleDict :=
  {| font_family := FamilyList ["sans-serif"%string];
     font_variant := "normal";
     font_style := "normal";
     font_stretch := "normal";
     font_size := 1;
     font_weight := 400;
     word_spacing := 0;
     letter_spacing := SpacingNormal |}.

End Mono.

(* ------------------------------------------------------------------ *)
(** * Predicates used by the statements *)

Open Scope nat_scope.

(** What the module expects of the layouts of the engine: an empty first
    line followed by another line is a paragraph that a line-break
    character ends, so the second line starts after it; and when the
    engine breaks a text into several lines, the first of them does not
    hold the whole text. *)
Record engine_ok (E : Engine) : Prop := {
  forced_break_advances :
    forall layout second_line others,
      rest_lines E layout = second_line :: others ->
      line_length (first_line_of E layout) = 0 ->
      1 <= start_index second_line;
  first_line_is_proper :
    forall layout second_line others,
      rest_lines E layout = second_line :: others ->
      line_length (first_line_of E layout) < byte_length (lay_text layout)
}.

(** [append_line st txt line cd lbd]: the state after one line was
    accepted. *)
Definition append_line (st : LoopState) (txt : text) (line : text)
    (cd lbd : Z) : LoopState :=
  {| text_ := txt;
     lines := lines st ++ [line];
     character_differences := character_differences st ++ [cd];
     line_break_differences := line_break_differences st ++ [lbd] |}.

Section Iterations.

Variable E : Engine.
Variables (style : StyleDict) (hinting : bool) (max_width : option Q).

(** The branches of the loop body, one constructor for each path that
    reaches the end of an iteration. *)
Inductive iteration (st : LoopState) : Step -> Prop :=
  | single_line layout first_line_text :
      create_temp_layout E (text_ st) style hinting max_width = Ok layout ->
      bytes_prefix (text_ st) (line_length (first_line_of E layout))
        = Some first_line_text ->
      rest_lines E layout = [] ->
      iteration st
        (Break (append_line st (text_ st) first_line_text 0 0))
  | forced_break layout second_line others txt' :
      create_temp_layout E (text_ st) style hinting max_width = Ok layout ->
      rest_lines E layout = second_line :: others ->
      line_length (first_line_of E layout) = 0 ->
      bytes_suffix (text_ st) (start_index second_line) = Some txt' ->
      iteration st
        (Continue (append_line st txt' newline 0
                     (Z.of_nat (start_index second_line) - 1)))
  | nothing_left layout second_line others first_line_text :
      create_temp_layout E (text_ st) style hinting max_width = Ok layout ->
      rest_lines E layout = second_line :: others ->
      line_length (first_line_of E layout) <> 0 ->
      bytes_prefix (text_ st) (line_length (first_line_of E layout))
        = Some first_line_text ->
      bytes_suffix (text_ st) (line_length (first_line_of E layout))
        = Some [] ->
      iteration st (Continue st)
  | word_left_out layout second_line others first_line_text next_text
        nwl word_text first_line_layout :
      create_temp_layout E (text_ st) style hinting max_width = Ok layout ->
      rest_lines E layout = second_line :: others ->
      line_length (first_line_of E layout) <> 0 ->
      bytes_prefix (text_ st) (line_length (first_line_of E layout))
        = Some first_line_text ->
      bytes_suffix (text_ st) (line_length (first_line_of E layout))
        = Some next_text ->
      next_text <> [] ->
      next_word_layout E next_text style hinting = Ok nwl ->
      bytes_prefix next_text (line_length (first_line_of E nwl))
        = Some word_text ->
      create_temp_layout E (first_line_text ++ rstrip word_text)
                         style hinting max_width = Ok first_line_layout ->
      rest_lines E first_line_layout <> [] ->
      iteration st
        (Continue (append_line st next_text (rstrip first_line_text)
                     (len (rstrip first_line_text) - len first_line_text) 0))
  | word_taken layout second_line others first_line_text next_text
        nwl word_text first_line_layout :
      create_temp_layout E (text_ st) style hinting max_width = Ok layout ->
      rest_lines E layout = second_line :: others ->
      line_length (first_line_of E layout) <> 0 ->
      bytes_prefix (text_ st) (line_length (first_line_of E layout))
        = Some first_line_text ->
      bytes_suffix (text_ st) (line_length (first_line_of E layout))
        = Some next_text ->
      next_text <> [] ->
      next_word_layout E next_text style hinting = Ok nwl ->
      bytes_prefix next_text (line_length (first_line_of E nwl))
        = Some word_text ->
      create_temp_layout E (first_line_text ++ rstrip word_text)
                         style hinting max_width = Ok first_line_layout ->
      rest_lines E first_line_layout = [] ->
      iteration st
        (Continue
           (append_line st
              (skipn (line_length (first_line_of E layout)
                      + line_length (first_line_of E nwl)) (text_ st))
              (first_line_text ++ rstrip word_text)
              (len (rstrip word_text) - len word_text) 0)).

(** The states of the loop: [after_iterations st running st'] when the
    loop, started in [st], has completed some iterations and is in state
    [st']: back at its [while] test if [running], out of the loop through
    [break] otherwise. *)
Inductive after_iterations (st : LoopState) : bool -> LoopState -> Prop :=
  | no_iteration : after_iterations st true st
  | iteration_continues st' st'' :
      after_iterations st true st' ->
      text_ st' <> [] ->
      loop_body E style hinting max_width st' = Ok (Continue st'') ->
      after_iterations st true st''
  | iteration_breaks st' st'' :
      after_iterations st true st' ->
      text_ st' <> [] ->
      loop_body E style hinting max_width st' = Ok (Break st'') ->
      after_iterations st false st''.

End Iterations.

(** The three accumulators have the same number of elements. *)
Definition same_lengths (st : LoopState) : Prop :=
  List.length (lines st) = List.length (character_differences st)
  /\ List.length (character_differences st)
     = List.length (line_break_differences st).


(** The width that [create_temp_layout] gives to the layout, and a
    layout with another width. *)
Definition width_of (max_width : option Q) : option Z :=
  match max_width with
  | Some w =>
    if Qlt_bool w (inject_Z (2 ^ 21)) then Some (units_from_double w)
    else None
  | None => None
  end.

Definition with_width (layout : Layout) (width : option Z) : Layout :=
  {| lay_hinted := lay_hinted layout;
     lay_font := lay_font layout;
     lay_wrap := lay_wrap layout;
     lay_text := lay_text layout;
     lay_width := width;
     lay_attributes := lay_attributes layout |}.

(** The state in which an iteration ends. *)
Definition step_state (r : Step) : LoopState :=
  match r with
  | Continue st => st
  | Break st => st
  end.

(** Sample texts. *)
Definition txt_aa_bb : text := text_of_string "aa bb".
Definition txt_e_bb_cc : text := 233%N :: text_of_string " bb cc".
Definition txt_ab_nl_cd : text :=
  text_of_string "ab" ++ newline ++ text_of_string "cd".
Definition txt_nl_cd : text := newline ++ text_of_string "cd".
Definition txt_bb_cc : text := text_of_string "bb cc".


(** Layouts of the sample texts with the plain style of the reference
    engine. *)
Definition plain_layout (txt : text) (width : option Z) : Layout :=
  {| lay_hinted := false;
     lay_font :=
       {| fd_family := "sans-serif"; fd_variant := VARIANT_NORMAL;
          fd_style := STYLE_NORMAL; fd_stretch := STRETCH_NORMAL;
          fd_absolute_size := 1024; fd_weight := 400 |};
     lay_wrap := WRAP_WORD;
     lay_text := txt;
     lay_width := width;
     lay_attributes := None |}.

(** Whether [create_temp_layout] builds a spacing markup: the condition
    [text and (word_spacing != 0 or letter_spacing != 0)], with ['normal']
    read as 0. *)
Definition wants_markup (txt : text) (style : StyleDict) : bool :=
  negb (is_empty txt)
  && (negb (Qis_zero (word_spacing style))
      || negb (Qis_zero (match letter_spacing style with
                         | SpacingNormal => 0%Q
                         | SpacingLength q => q
                         end))).

(** The keywords of a style are keys of the engine's tables. *)
Definition known_keywords (style : StyleDict) : Prop :=
  In (font_variant style) (map fst PANGO_VARIANT)
  /\ In (font_style style) (map fst PANGO_STYLE)
  /\ In (font_stretch style) (map fst PANGO_STRETCH).

(** The markup that [create_temp_layout] hands to [parse_markup] when it
    builds one: [escape(text)] with each space wrapped in a span of
    [word_spacing + letter_spacing] units, the whole wrapped in a span of
    [letter_spacing] units, with ['normal'] read as 0. *)
Definition spacing_markup (txt : text) (style : StyleDict) : text :=
  let word_spacing := word_spacing style in
  let letter_spacing :=
    match letter_spacing style with
    | SpacingNormal => 0%Q
    | SpacingLength q => q
    end in
  let word_spacing := units_from_double word_spacing in
  let letter_spacing := units_from_double letter_spacing in
  let markup :=
    replace_space (span (word_spacing + letter_spacing) [space])
                  (escape txt) in
  span letter_spacing markup.

(** The widths whose units fit in a signed 32-bit integer from below:
    [None], or a number that is at least [-2^21].  ([create_temp_layout]
    itself keeps the units below [2^31].) *)
Definition width_in_range (max_width : option Q) : Prop :=
  match max_width with
  | None => True
  | Some w => (inject_Z (- 2 ^ 21) <= w)%Q
  end.

(** The plain style of the reference engine with a word spacing of one
    pixel. *)
Definition spaced_style : StyleDict :=
  {| font_family := FamilyList ["sans-serif"%string];
     font_variant := "normal";
     font_style := "normal";
     font_stretch := "normal";
     font_size := 1;
     font_weight := 400;
     word_spacing := 1;
     letter_spacing := SpacingNormal |}.

(** The reference engine with a parser that rejects every markup. *)
Definition rejecting_engine : Engine :=
  {| parse_markup := fun _ => None;
     first_line_of := first_line_of Mono.engine;
     rest_lines := rest_lines Mono.engine;
     get_baseline := get_baseline Mono.engine |}.

(* ------------------------------------------------------------------ *)
(** * Facts about the UTF-8 codec *)

Ltac Zify.zify_post_hook ::= Z.to_euclidean_division_equations.

Ltac ncases :=
  repeat match goal with
  | |- context [N.ltb ?a ?b] => destruct (N.ltb_spec a b); try lia
  | |- context [N.leb ?a ?b] => destruct (N.leb_spec a b); try lia
  end.

Lemma encode_char_length (c : codepoint) :
  1 <= List.length (encode_char c) <= 4.
Proof.
  unfold encode_char.
  repeat match goal with |- context [N.ltb ?a ?b] => destruct (N.ltb a b) end;
    simpl; lia.
Qed.

Lemma decode_cont_head (b : N) (bs : bytes) :
  is_cont b = true -> decode (b :: bs) = None.
Proof.
  unfold is_cont. intros H. apply andb_prop in H. destruct H as [H1 H2].
  apply N.leb_le in H1. apply N.ltb_lt in H2.
  cbn [decode]. ncases. reflexivity.
Qed.

Lemma decode_encode_char (c : codepoint) (bs : bytes) :
  valid_codepoint c ->
  decode (encode_char c ++ bs) = option_map (cons c) (decode bs).
Proof.
  unfold valid_codepoint, encode_char. intros Hc.
  destruct (N.ltb_spec c 0x80);
    [| destruct (N.ltb_spec c 0x800); [| destruct (N.ltb_spec c 0x10000)]];
  cbn [app decode]; unfold is_cont; ncases; cbn [andb];
  (reflexivity || (do 2 f_equal; lia)).
Qed.

(** Every byte of an encoded character after the first is a continuation
    byte. *)
Lemma encode_char_shape (c : codepoint) :
  exists b0 tl, encode_char c = b0 :: tl
                /\ Forall (fun b => is_cont b = true) tl.
Proof.
  unfold encode_char.
  destruct (N.ltb_spec c 0x80);
    [| destruct (N.ltb_spec c 0x800); [| destruct (N.ltb_spec c 0x10000)]];
  eexists; eexists; (split; [reflexivity |]);
  repeat constructor; unfold is_cont; ncases; reflexivity.
Qed.

Lemma encode_app (a b : text) : encode (a ++ b) = encode a ++ encode b.
Proof.
  induction a as [| c a IH]; simpl; [reflexivity |].
  now rewrite IH, app_assoc.
Qed.

Lemma decode_encode (t : text) : valid_text t -> decode (encode t) = Some t.
Proof.
  induction 1 as [| c t Hc Ht IH]; simpl; [reflexivity |].
  now rewrite decode_encode_char, IH.
Qed.

Lemma valid_text_split (k : nat) (t : text) :
  valid_text t -> valid_text (firstn k t) /\ valid_text (skipn k t).
Proof.
  unfold valid_text. intros H. apply Forall_app. now rewrite firstn_skipn.
Qed.

Lemma valid_text_firstn (k : nat) (t : text) :
  valid_text t -> valid_text (firstn k t).
Proof. intros H. apply (valid_text_split k H). Qed.

Lemma valid_text_skipn (k : nat) (t : text) :
  valid_text t -> valid_text (skipn k t).
Proof. intros H. apply (valid_text_split k H). Qed.

Lemma encode_firstn_skipn (k : nat) (t : text) :
  encode t = encode (firstn k t) ++ encode (skipn k t).
Proof. now rewrite <- encode_app, firstn_skipn. Qed.

(** Cutting the encoding at a character boundary and decoding gives the
    characters before, and after, the boundary. *)
Lemma bytes_prefix_boundary (k : nat) (t : text) :
  valid_text t ->
  bytes_prefix t (byte_length (firstn k t)) = Some (firstn k t).
Proof.
  intros Ht. unfold bytes_prefix, byte_length.
  rewrite (encode_firstn_skipn k t).
  rewrite firstn_app, firstn_all, Nat.sub_diag. simpl. rewrite app_nil_r.
  now apply decode_encode, valid_text_firstn.
Qed.

Lemma bytes_suffix_boundary (k : nat) (t : text) :
  valid_text t ->
  bytes_suffix t (byte_length (firstn k t)) = Some (skipn k t).
Proof.
  intros Ht. unfold bytes_suffix, byte_length.
  rewrite (encode_firstn_skipn k t).
  rewrite skipn_app, skipn_all, Nat.sub_diag. simpl.
  now apply decode_encode, valid_text_skipn.
Qed.

Lemma bytes_prefix_all (t : text) :
  valid_text t -> bytes_prefix t (byte_length t) = Some t.
Proof.
  intros Ht. unfold bytes_prefix, byte_length.
  rewrite firstn_all. now apply decode_encode.
Qed.

Lemma decode_nil (bs : bytes) : decode bs = Some [] -> bs = [].
Proof.
  destruct bs as [| b0 r0]; [reflexivity |]. cbn [decode]. intros H.
  exfalso.
  destruct (b0 <? 128)%N; [destruct (decode r0); discriminate |].
  destruct (b0 <? 194)%N; [discriminate |].
  destruct (b0 <? 224)%N.
  { destruct r0 as [| b1 r1]; [discriminate |].
    destruct (is_cont b1); [destruct (decode r1) |]; discriminate. }
  destruct (b0 <? 240)%N.
  { destruct r0 as [| b1 [| b2 r2]]; try discriminate.
    match type of H with (if ?c then _ else _) = _ => destruct c end;
      [destruct (decode r2) |]; discriminate. }
  destruct (b0 <? 245)%N; [| discriminate].
  destruct r0 as [| b1 [| b2 [| b3 r3]]]; try discriminate.
  match type of H with (if ?c then _ else _) = _ => destruct c end;
    [destruct (decode r3) |]; discriminate.
Qed.

(** Decoding the encoding from byte [n] on succeeds only at a character
    boundary, and gives the characters after it. *)
Lemma bytes_suffix_inv (t : text) :
  valid_text t ->
  forall n t', bytes_suffix t n = Some t' ->
  exists k, k <= List.length t /\ t' = skipn k t
            /\ byte_length (firstn k t) = Nat.min n (byte_length t).
Proof.
  unfold bytes_suffix, byte_length.
  induction 1 as [| c t Hc Ht IH]; intros n t' Hd.
  - rewrite skipn_nil in Hd. simpl in Hd. injection Hd as <-.
    exists 0. simpl. repeat split; lia.
  - destruct n as [| n].
    { rewrite skipn_0 in Hd. rewrite (decode_encode (t := c :: t)) in Hd
        by (constructor; assumption).
      injection Hd as <-. exists 0. simpl. repeat split; lia. }
    simpl encode in Hd |- *.
    destruct (encode_char_shape c) as (b0 & tl & Hs & Hcont).
    rewrite Hs in *. simpl in Hd.
    destruct (Nat.le_gt_cases (List.length tl) n) as [Hle | Hlt].
    + rewrite skipn_app, skipn_all2, app_nil_l in Hd by assumption.
      destruct (IH _ _ Hd) as (k & Hk & -> & Hb).
      exists (S k). simpl. rewrite Hs. simpl.
      rewrite !length_app in *. repeat split; lia.
    + exfalso. rewrite skipn_app in Hd.
      replace (n - List.length tl) with 0 in Hd by lia.
      rewrite skipn_0 in Hd.
      destruct (skipn n tl) as [| b tl'] eqn:Hsk.
      { apply (f_equal (@List.length N)) in Hsk.
        rewrite length_skipn in Hsk. simpl in Hsk. lia. }
      assert (Hb : is_cont b = true).
      { rewrite <- (firstn_skipn n tl), Hsk in Hcont.
        apply Forall_app in Hcont. destruct Hcont as [_ Hcont].
        now inversion Hcont. }
      rewrite <- app_comm_cons, decode_cont_head in Hd by exact Hb.
      discriminate.
Qed.

(** Skipping at least one byte of a non-empty text skips at least one
    character. *)
Lemma bytes_suffix_consumes (t : text) (n : nat) (t' : text) :
  valid_text t -> t <> [] -> 1 <= n ->
  bytes_suffix t n = Some t' ->
  exists k, 1 <= k <= List.length t /\ t' = skipn k t.
Proof.
  intros Ht Hne Hn Hd.
  destruct (bytes_suffix_inv Ht _ Hd) as (k & Hk & -> & Hb).
  exists k. split; [| reflexivity]. split; [| assumption].
  destruct k; [| lia]. exfalso.
  destruct t as [| c t]; [congruence |].
  unfold byte_length in Hb. simpl in Hb. rewrite length_app in Hb.
  pose proof (encode_char_length c). lia.
Qed.

Lemma byte_length_nonempty (t : text) : t <> [] -> 1 <= byte_length t.
Proof.
  destruct t as [| c t]; [congruence |]. intros _.
  unfold byte_length. simpl. rewrite length_app.
  pose proof (encode_char_length c). lia.
Qed.

(* ------------------------------------------------------------------ *)
(** * Facts about the functions of the module *)

Lemma bind_Ok {A B} (r : result A) (k : A -> result B) (b : B) :
  bind r k = Ok b -> exists a, r = Ok a /\ k a = Ok b.
Proof. destruct r as [a | e]; simpl; [eauto | discriminate]. Qed.

Lemma decoded_Ok (o : option text) (t : text) :
  decoded o = Ok t <-> o = Some t.
Proof.
  destruct o; simpl; split; intros H; try discriminate;
    injection H as ->; reflexivity.
Qed.

Ltac bind_inv H :=
  let a := fresh "a" in
  let Ha := fresh "Ha" in
  apply bind_Ok in H; destruct H as (a & Ha & H).

Section TempLayoutFacts.

Variable E : Engine.

Lemma create_temp_layout_fields txt style hinting max_width layout :
  create_temp_layout E txt style hinting max_width = Ok layout ->
  lay_text layout = txt /\ lay_width layout = width_of max_width
  /\ lay_wrap layout = WRAP_WORD /\ lay_hinted layout = hinting.
Proof.
  unfold create_temp_layout. intros H.
  do 5 bind_inv H. injection H as <-. simpl. auto.
Qed.

(** [max_width] only decides the width of the layout: it never changes
    whether the call raises, nor any other field. *)
Lemma create_temp_layout_any_width txt style hinting w w' :
  create_temp_layout E txt style hinting w'
  = (layout <- create_temp_layout E txt style hinting w ;;
     Ok (with_width layout (width_of w'))).
Proof.
  unfold create_temp_layout.
  destruct (font_family style); cbn [bind]; [reflexivity |].
  destruct (getitem PANGO_VARIANT (font_variant style)); cbn [bind];
    [| reflexivity].
  destruct (getitem PANGO_STYLE (font_style style)); cbn [bind];
    [| reflexivity].
  destruct (getitem PANGO_STRETCH (font_stretch style)); cbn [bind];
    [| reflexivity].
  match goal with |- bind ?r _ = _ => destruct r end; reflexivity.
Qed.

Lemma line_count_gt_1 layout :
  Nat.ltb 1 (get_line_count E layout) = true <-> rest_lines E layout <> [].
Proof.
  unfold get_line_count, Nat.ltb.
  destruct (rest_lines E layout); simpl; split; intros H;
    (reflexivity || discriminate || congruence).
Qed.

End TempLayoutFacts.

Section LoopFacts.

Variable E : Engine.
Variables (style : StyleDict) (hinting : bool) (max_width : option Q).

Lemma is_empty_false (t : text) : negb (is_empty t) = true <-> t <> [].
Proof. destruct t; simpl; split; intros H; congruence. Qed.

(** The loop body ends an iteration exactly along one of the branches
    of [iteration]. *)
Lemma loop_body_iteration (st : LoopState) (r : Step) :
  loop_body E style hinting max_width st = Ok r -> iteration E style hinting max_width st r.
Proof.
  unfold loop_body. intros H.
  bind_inv H. rename a into layout, Ha into Hlayout.
  bind_inv H. rename a into first_line_text, Ha into Hflt.
  apply decoded_Ok in Hflt.
  destruct (rest_lines E layout) as [| second_line others] eqn:Hrest.
  - injection H as <-. rewrite Z.sub_diag.
    eapply single_line; eauto.
  - destruct (Nat.eqb_spec (line_length (first_line_of E layout)) 0)
      as [Hz | Hnz].
    + bind_inv H. rename a into txt', Ha into Htxt'.
      apply decoded_Ok in Htxt'. injection H as <-.
      eapply forced_break; eauto.
    + bind_inv H. rename a into next_text, Ha into Hnext.
      apply decoded_Ok in Hnext.
      destruct next_text as [| c next_text'].
      { simpl in H. injection H as <-. eapply nothing_left; eauto. }
      cbn [is_empty negb] in H.
      bind_inv H. destruct a as [word_length word_text].
      unfold next_word in Ha.
      bind_inv Ha. rename a into nwl, Ha0 into Hnwl.
      bind_inv Ha. rename a into word_text', Ha0 into Hword.
      apply decoded_Ok in Hword. injection Ha as <- <-.
      bind_inv H. rename a into first_line_layout, Ha into Hfll.
      destruct (Nat.ltb 1 (get_line_count E first_line_layout)) eqn:Hcount;
        injection H as <-.
      * eapply word_left_out; eauto; try discriminate.
        now apply line_count_gt_1.
      * eapply word_taken; eauto; try discriminate.
        destruct (rest_lines E first_line_layout) eqn:Hr; [reflexivity |].
        exfalso. assert (Hne : rest_lines E first_line_layout <> [])
          by (rewrite Hr; discriminate).
        apply line_count_gt_1 in Hne. congruence.
Qed.

Lemma iteration_loop_body (st : LoopState) (r : Step) :
  iteration E style hinting max_width st r -> loop_body E style hinting max_width st = Ok r.
Proof.
  intros H. unfold loop_body.
  destruct H as
    [ layout flt Hl Hp Hr
    | layout l1 others txt' Hl Hr Hz Hs
    | layout l1 others flt Hl Hr Hnz Hp Hs
    | layout l1 others flt next nwl word fll Hl Hr Hnz Hp Hs Hne Hn Hw Hf Hc
    | layout l1 others flt next nwl word fll Hl Hr Hnz Hp Hs Hne Hn Hw Hf Hc ];
    rewrite Hl; cbn [bind].
  - rewrite Hp, Hr. cbn [bind decoded]. rewrite Z.sub_diag. reflexivity.
  - rewrite Hz in *. unfold bytes_prefix. cbn [firstn decode decoded bind].
    rewrite Hr, Hs. reflexivity.
  - rewrite Hp, Hr. cbn [bind decoded].
    apply Nat.eqb_neq in Hnz. rewrite Hnz, Hs. reflexivity.
  - rewrite Hp, Hr. cbn [bind decoded].
    apply Nat.eqb_neq in Hnz. rewrite Hnz, Hs. cbn [bind decoded].
    apply is_empty_false in Hne. rewrite Hne. unfold next_word.
    rewrite Hn. cbn [bind].
    rewrite Hw. cbn [bind decoded]. rewrite Hf. cbn [bind].
    apply line_count_gt_1 in Hc. rewrite Hc. reflexivity.
  - rewrite Hp, Hr. cbn [bind decoded].
    apply Nat.eqb_neq in Hnz. rewrite Hnz, Hs. cbn [bind decoded].
    apply is_empty_false in Hne. rewrite Hne. unfold next_word.
    rewrite Hn. cbn [bind].
    rewrite Hw. cbn [bind decoded]. rewrite Hf. cbn [bind].
    destruct (Nat.ltb 1 (get_line_count E fll)) eqn:Hcount; [| reflexivity].
    apply line_count_gt_1 in Hcount. congruence.
Qed.

End LoopFacts.

(* ------------------------------------------------------------------ *)
(** * The reference engine meets the expectations of the module *)

Module MonoFacts.

Import Mono.

Lemma byte_length_cons (c : codepoint) (t : text) :
  byte_length (c :: t) = char_bytes c + byte_length t.
Proof. unfold byte_length, char_bytes. simpl. now rewrite length_app. Qed.

Lemma char_bytes_pos (c : codepoint) : 1 <= char_bytes c.
Proof. apply encode_char_length. Qed.

Lemma words_from_bytes (t : text) :
  forall bl w sp, word_bytes (words_from bl w sp t) = bl + byte_length t.
Proof.
  induction t as [| c t IH]; intros bl w sp; simpl.
  - destruct (Nat.eqb_spec bl 0); simpl; unfold byte_length; simpl; lia.
  - rewrite byte_length_cons.
    destruct (N.eqb c space); [rewrite IH; lia |].
    destruct sp; simpl; rewrite IH; lia.
Qed.

Lemma words_from_pos (t : text) :
  forall bl w sp, (sp = true -> 1 <= bl) ->
  Forall (fun wd => 1 <= fst wd) (words_from bl w sp t).
Proof.
  induction t as [| c t IH]; intros bl w sp Hsp; simpl.
  - destruct (Nat.eqb_spec bl 0); constructor; simpl; [lia | constructor].
  - pose proof (char_bytes_pos c).
    destruct (N.eqb c space); [apply IH; intros; lia |].
    destruct sp.
    + constructor; [simpl; auto | apply IH; discriminate].
    + apply IH. discriminate.
Qed.

(** The lines of a paragraph: the first starts where the paragraph
    starts; when there are several, the first is neither empty nor the
    whole paragraph. *)
Lemma pack_first (width : option Z) (advance : Z) (ws : list Word) :
  Forall (fun wd => 1 <= fst wd) ws ->
  forall start len chars,
  exists l ls,
    pack width advance start len chars ws = l :: ls
    /\ start_index l = start
    /\ line_length l <= len + word_bytes ws
    /\ (ls <> [] -> 1 <= line_length l < len + word_bytes ws).
Proof.
  induction 1 as [| [bl w] ws Hpos Hws IH]; intros start len chars.
  - exists (mk_line advance start len chars), []. simpl.
    repeat split; try lia; congruence.
  - simpl in Hpos. cbn [pack word_bytes fold_right fst].
    fold (word_bytes ws).
    destruct (Nat.eqb len 0 || fits width advance (chars + w)) eqn:Hc.
    + destruct (IH start (len + bl) (chars + w)%Z)
        as (l & ls & -> & Hs & Hle & Hlt).
      exists l, ls. repeat split; try lia; apply Hlt; assumption.
    + apply orb_false_iff in Hc. destruct Hc as [Hlen _].
      apply Nat.eqb_neq in Hlen.
      eexists; eexists. split; [reflexivity |]. simpl.
      repeat split; lia.
Qed.

Lemma paragraphs_bytes (t : text) :
  byte_length t
  = byte_length (fst (paragraphs t)) + paragraph_bytes (snd (paragraphs t)).
Proof.
  induction t as [| c t IH]; [reflexivity |].
  rewrite byte_length_cons. simpl.
  destruct (paragraphs t) as [p ps]. simpl in IH.
  destruct (N.eqb_spec c 10%N) as [-> | Hc]; simpl.
  - change (char_bytes 10%N) with 1.
    change (byte_length []) with 0. lia.
  - rewrite byte_length_cons. lia.
Qed.

Lemma words_pos (p : text) : Forall (fun wd => 1 <= fst wd) (words p).
Proof. apply words_from_pos. discriminate. Qed.

Lemma words_bytes (p : text) : word_bytes (words p) = byte_length p.
Proof. unfold words. now rewrite words_from_bytes. Qed.

(** A text laid out from [start]: the first line, and what follows. *)
Lemma shape_paragraphs_first width advance start p ps :
  exists l ls,
    shape_paragraphs width advance start (p :: ps) = l :: ls
    /\ start_index l = start
    /\ (forall l1 others, ls = l1 :: others ->
        line_length l < byte_length p + paragraph_bytes ps
        /\ (line_length l = 0 -> start + 1 <= start_index l1)).
Proof.
  cbn [shape_paragraphs].
  destruct (pack_first width advance (words_pos p) start 0 0%Z)
    as (l & ls & Hpack & Hs & Hle & Hlt).
  rewrite words_bytes in *. rewrite Hpack.
  exists l, (ls ++ shape_paragraphs width advance (start + byte_length p + 1) ps).
  split; [reflexivity |]. split; [assumption |].
  intros l1 others Hrest.
  destruct ls as [| l' ls'].
  - simpl in Hrest. destruct ps as [| q qs]; [discriminate |].
    split; [simpl; lia |]. intros _.
    cbn [shape_paragraphs] in Hrest.
    destruct (pack_first width advance (words_pos q)
                (start + byte_length p + 1) 0 0%Z)
      as (m & ms & Hq & Hms & _).
    rewrite Hq in Hrest. injection Hrest as <- _. lia.
  - assert (Hne : l' :: ls' <> []) by discriminate.
    specialize (Hlt Hne). split; lia.
Qed.

Lemma shape_first (layout : Layout) :
  exists l ls,
    shape layout = l :: ls
    /\ (forall l1 others, ls = l1 :: others ->
        line_length l < byte_length (lay_text layout)
        /\ (line_length l = 0 -> 1 <= start_index l1)).
Proof.
  unfold shape.
  pose proof (paragraphs_bytes (lay_text layout)) as Hb.
  destruct (paragraphs (lay_text layout)) as [p ps]. simpl in Hb.
  destruct (shape_paragraphs_first (lay_width layout)
              (fd_absolute_size (lay_font layout)) 0 p ps)
    as (l & ls & -> & _ & H).
  exists l, ls. split; [reflexivity |].
  intros l1 others Hls. destruct (H _ _ Hls) as [H1 H2].
  split; [lia |]. intros Hz. specialize (H2 Hz). lia.
Qed.

Lemma engine_is_ok : engine_ok engine.
Proof.
  split; intros layout l1 others Hrest; simpl in *;
    destruct (shape_first layout) as (l & ls & Hs & H);
    rewrite Hs in *; simpl in *; destruct (H _ _ Hrest) as [H1 H2]; auto.
Qed.

End MonoFacts.

(* ------------------------------------------------------------------ *)
(** * The loop of [create_layout] *)

Lemma rstrip_length (t : text) : List.length (rstrip t) <= List.length t.
Proof.
  induction t as [| c t IH]; simpl; [lia |].
  destruct (rstrip t); [destruct (N.eqb c space) |]; simpl in *; lia.
Qed.

Section LoopInvariants.

Variable E : Engine.
Variables (style : StyleDict) (hinting : bool) (max_width : option Q).

Lemma same_lengths_append st txt line cd lbd :
  same_lengths st -> same_lengths (append_line st txt line cd lbd).
Proof.
  unfold same_lengths, append_line. simpl. rewrite !length_app. simpl. lia.
Qed.

Lemma iteration_same_lengths st r :
  iteration E style hinting max_width st r ->
  same_lengths st -> same_lengths (step_state r).
Proof.
  intros H Hst. destruct H; simpl; auto using same_lengths_append.
Qed.

Lemma character_differences_append st txt line cd lbd :
  Forall (fun d => (d <= 0)%Z) (character_differences st) -> (cd <= 0)%Z ->
  Forall (fun d => (d <= 0)%Z)
    (character_differences (append_line st txt line cd lbd)).
Proof. intros H Hcd. simpl. apply Forall_app. split; auto. Qed.

Lemma line_break_differences_append st txt line cd lbd :
  Forall (fun d => (0 <= d)%Z) (line_break_differences st) -> (0 <= lbd)%Z ->
  Forall (fun d => (0 <= d)%Z)
    (line_break_differences (append_line st txt line cd lbd)).
Proof. intros H Hlbd. simpl. apply Forall_app. split; auto. Qed.

(** Whatever the engine answers, an iteration appends 0 or the (negative)
    number of stripped spaces to [character_differences]. *)
Lemma iteration_character_differences st r :
  iteration E style hinting max_width st r ->
  Forall (fun d => (d <= 0)%Z) (character_differences st) ->
  Forall (fun d => (d <= 0)%Z) (character_differences (step_state r)).
Proof.
  intros H Hst.
  destruct H as
    [ layout flt Hl Hp Hr
    | layout l1 others txt' Hl Hr Hz Hs
    | layout l1 others flt Hl Hr Hnz Hp Hs
    | layout l1 others flt next nwl word fll Hl Hr Hnz Hp Hs Hne Hn Hw Hf Hc
    | layout l1 others flt next nwl word fll Hl Hr Hnz Hp Hs Hne Hn Hw Hf Hc ];
    cbn [step_state]; auto; apply character_differences_append; auto;
    try lia.
  - unfold len. pose proof (rstrip_length flt). lia.
  - unfold len. pose proof (rstrip_length word). lia.
Qed.

(** An iteration appends 0 to [line_break_differences], or the offset of
    the second line minus 1 after an empty first line. *)
Lemma iteration_line_break_differences st r :
  engine_ok E ->
  iteration E style hinting max_width st r ->
  Forall (fun d => (0 <= d)%Z) (line_break_differences st) ->
  Forall (fun d => (0 <= d)%Z) (line_break_differences (step_state r)).
Proof.
  intros HE H Hst.
  destruct H as
    [ layout flt Hl Hp Hr
    | layout l1 others txt' Hl Hr Hz Hs
    | layout l1 others flt Hl Hr Hnz Hp Hs
    | layout l1 others flt next nwl word fll Hl Hr Hnz Hp Hs Hne Hn Hw Hf Hc
    | layout l1 others flt next nwl word fll Hl Hr Hnz Hp Hs Hne Hn Hw Hf Hc ];
    cbn [step_state]; auto; apply line_break_differences_append; auto;
    try lia.
  pose proof (forced_break_advances HE layout Hr Hz). lia.
Qed.

(** A property of the initial state that every iteration keeps holds in
    every state of the loop. *)
Lemma after_iterations_ind_iteration (P : LoopState -> Prop) st :
  P st ->
  (forall st' r, P st' -> iteration E style hinting max_width st' r ->
                 P (step_state r)) ->
  forall running st',
    after_iterations E style hinting max_width st running st' -> P st'.
Proof.
  intros H0 Hstep running st' H.
  induction H as [| st' st'' _ IH _ Hb | st' st'' _ IH _ Hb]; auto.
  - apply (Hstep st' (Continue st'')); auto using loop_body_iteration.
  - apply (Hstep st' (Break st'')); auto using loop_body_iteration.
Qed.

Lemma after_iterations_trans st s running st' :
  after_iterations E style hinting max_width st true s ->
  after_iterations E style hinting max_width s running st' ->
  after_iterations E style hinting max_width st running st'.
Proof.
  intros H1 H2. induction H2; [assumption | |].
  - eapply iteration_continues; eauto.
  - eapply iteration_breaks; eauto.
Qed.

(** The state in which the loop ends was reached by completed
    iterations. *)
Lemma loop_after_iterations fuel :
  forall st st',
  loop E fuel style hinting max_width st = Some (Ok st') ->
  exists running,
    after_iterations E style hinting max_width st running st'.
Proof.
  induction fuel as [| fuel IH]; intros st st'; simpl.
  - destruct (is_empty (text_ st)); [| discriminate].
    intros H. injection H as <-. exists true. constructor.
  - destruct (is_empty (text_ st)) eqn:He.
    { intros H. injection H as <-. exists true. constructor. }
    assert (Hne : text_ st <> []).
    { intros Hnil. rewrite Hnil in He. discriminate. }
    destruct (loop_body E style hinting max_width st) as [[s | s] | e] eqn:Hb;
      intros H.
    + destruct (IH _ _ H) as [running Hrun]. exists running.
      eapply after_iterations_trans; [| exact Hrun].
      eapply iteration_continues; [constructor | exact Hne | exact Hb].
    + injection H as <-. exists false.
      eapply iteration_breaks; [constructor | exact Hne | exact Hb].
    + discriminate.
Qed.

End LoopInvariants.

(** ** C9 *)

(** C9: after every completed iteration of the loop of [create_layout],
    [lines], [character_differences] and [line_break_differences] have
    the same number of elements. *)
Theorem accumulators_have_same_length
    (E : Engine) (style : StyleDict) (hinting : bool) (max_width : option Q)
    (txt : text) (running : bool) (st : LoopState) :
  after_iterations E style hinting max_width (initial_state txt) running st ->
  same_lengths st.
Proof.
  apply after_iterations_ind_iteration.
  - split; reflexivity.
  - intros st' r Hst Hit. eapply iteration_same_lengths; eauto.
Qed.

Lemma accumulators_have_same_length_witness :
  same_lengths
    {| text_ := text_of_string "bb";
       lines := [text_of_string "aa"];
       character_differences := [(-1)%Z];
       line_break_differences := [0%Z] |}.
Proof.
  apply (@accumulators_have_same_length Mono.engine Mono.style false
           (Some 2%Q) txt_aa_bb true).
  eapply iteration_continues;
    [apply no_iteration | discriminate | vm_compute; reflexivity].
Defined.

(** ** C10 *)

(** C10: every element appended to [character_differences] is at most
    0, whatever the engine; with an engine whose layouts are as
    [engine_ok] says, every element appended to [line_break_differences]
    is at least 0; and the lists that [create_layout] returns have these
    signs. *)
Theorem corrections_have_signs
    (E : Engine) (style : StyleDict) (hinting : bool) (max_width : option Q)
    (txt : text) :
  (forall running st,
     after_iterations E style hinting max_width (initial_state txt)
       running st ->
     Forall (fun d => (d <= 0)%Z) (character_differences st))
  /\ (engine_ok E ->
      forall running st,
        after_iterations E style hinting max_width (initial_state txt)
          running st ->
        Forall (fun d => (0 <= d)%Z) (line_break_differences st))
  /\ (engine_ok E ->
      forall fuel layout cd lbd,
        create_layout E fuel txt style hinting max_width
        = Some (Ok (layout, cd, lbd)) ->
        Forall (fun d => (d <= 0)%Z) cd /\ Forall (fun d => (0 <= d)%Z) lbd).
Proof.
  assert (Hcd : forall running st,
    after_iterations E style hinting max_width (initial_state txt)
      running st ->
    Forall (fun d => (d <= 0)%Z) (character_differences st)).
  { apply (after_iterations_ind_iteration
             (fun st => Forall (fun d => (d <= 0)%Z)
                          (character_differences st))).
    - constructor.
    - intros st' r Hst Hit.
      eapply iteration_character_differences; eauto. }
  assert (Hlbd : engine_ok E -> forall running st,
    after_iterations E style hinting max_width (initial_state txt)
      running st ->
    Forall (fun d => (0 <= d)%Z) (line_break_differences st)).
  { intros HE.
    apply (after_iterations_ind_iteration
             (fun st => Forall (fun d => (0 <= d)%Z)
                          (line_break_differences st))).
    - constructor.
    - intros st' r Hst Hit.
      eapply iteration_line_break_differences; eauto. }
  split; [exact Hcd |]. split; [exact Hlbd |].
  intros HE fuel layout cd lbd. unfold create_layout.
  destruct (negb (truthy_width max_width)).
  - intros H. injection H as H. bind_inv H. injection H as _ <- <-.
    split; repeat constructor; lia.
  - destruct (loop E fuel style hinting max_width (initial_state txt))
      as [[st | e] |] eqn:Hloop; try discriminate.
    intros H. injection H as H. bind_inv H. injection H as _ <- <-.
    destruct (loop_after_iterations _ _ _ _ _ _ Hloop) as [running Hrun].
    split; [eapply Hcd | eapply Hlbd]; eauto.
Qed.

Lemma corrections_have_signs_witness :
  Forall (fun d => (0 <= d)%Z)
    (line_break_differences
       {| text_ := text_of_string "cd";
          lines := [newline];
          character_differences := [0%Z];
          line_break_differences := [0%Z] |}).
Proof.
  apply (proj1 (proj2 (@corrections_have_signs Mono.engine Mono.style false
                         (Some 10%Q) txt_nl_cd))
           MonoFacts.engine_is_ok true
           {| text_ := text_of_string "cd";
              lines := [newline];
              character_differences := [0%Z];
              line_break_differences := [0%Z] |}).
  eapply iteration_continues;
    [apply no_iteration | discriminate | vm_compute; reflexivity].
Defined.

(** ** C2 *)

Section Termination.

Variable E : Engine.
Hypothesis E_ok : engine_ok E.
Variables (style : StyleDict) (hinting : bool) (max_width : option Q).

Lemma skipn_consumes (k : nat) (t : text) :
  t <> [] -> 1 <= k ->
  exists k', 1 <= k' <= List.length t /\ skipn k t = skipn k' t.
Proof.
  intros Hne Hk. destruct t as [| c t]; [congruence |].
  destruct (Nat.le_gt_cases k (List.length (c :: t))).
  - exists k. auto.
  - exists (List.length (c :: t)). split; [simpl; lia |].
    rewrite skipn_all, skipn_all2; [reflexivity | lia].
Qed.

(** An iteration that goes back to the [while] test has consumed at
    least one character of the remaining text. *)
Lemma iteration_consumes st st' :
  valid_text (text_ st) -> text_ st <> [] ->
  iteration E style hinting max_width st (Continue st') ->
  exists k, 1 <= k <= List.length (text_ st)
            /\ text_ st' = skipn k (text_ st).
Proof.
  intros Hv Hne H. inversion H; subst; clear H; simpl.
  - (* forced break *)
    match goal with
    | Hr : rest_lines _ ?layout = _ :: _,
      Hs : bytes_suffix _ _ = Some _ |- _ =>
      refine (bytes_suffix_consumes Hv Hne _ Hs);
      eapply (forced_break_advances E_ok); eauto
    end.
  - (* nothing after the first line: the engine excludes it *)
    exfalso.
    match goal with
    | Hl : create_temp_layout _ _ _ _ _ = Ok ?layout,
      Hr : rest_lines _ ?layout = _ :: _,
      Hs : bytes_suffix _ _ = Some [] |- _ =>
      pose proof (first_line_is_proper E_ok layout Hr) as Hlt;
      destruct (create_temp_layout_fields _ _ _ _ _ Hl) as (Ht & _);
      rewrite Ht in Hlt;
      destruct (bytes_suffix_inv Hv _ Hs) as (k & Hk & Hnil & Hb)
    end.
    symmetry in Hnil. apply skipn_all_iff in Hnil.
    rewrite firstn_all2 in Hb by assumption. lia.
  - (* the word does not fit *)
    match goal with
    | Hs : bytes_suffix _ _ = Some _ |- _ =>
      refine (bytes_suffix_consumes Hv Hne _ Hs); lia
    end.
  - (* the word fits *)
    apply skipn_consumes; [assumption | lia].
Qed.

(** The one path through the loop body that changes nothing: several
    lines, a first line that is not empty, and no text after it.  The
    second expectation of [engine_ok] says that no layout is like that. *)
Lemma nothing_left_keeps_state st layout second_line others first_line_text :
  create_temp_layout E (text_ st) style hinting max_width = Ok layout ->
  rest_lines E layout = second_line :: others ->
  line_length (first_line_of E layout) <> 0 ->
  bytes_prefix (text_ st) (line_length (first_line_of E layout))
    = Some first_line_text ->
  bytes_suffix (text_ st) (line_length (first_line_of E layout)) = Some [] ->
  loop_body E style hinting max_width st = Ok (Continue st).
Proof.
  intros Hl Hr Hnz Hp Hs. apply iteration_loop_body.
  eapply nothing_left; eauto.
Qed.

Lemma loop_returns :
  forall fuel st,
  valid_text (text_ st) -> List.length (text_ st) <= fuel ->
  exists r, loop E fuel style hinting max_width st = Some r.
Proof.
  induction fuel as [| fuel IH]; intros st Hv Hlen; simpl.
  - destruct (text_ st); simpl in *; [eauto | lia].
  - destruct (is_empty (text_ st)) eqn:He; [eauto |].
    destruct (loop_body E style hinting max_width st) as [[s | s] | e] eqn:Hb;
      eauto.
    assert (Hne : text_ st <> []).
    { intros Hnil. rewrite Hnil in He. discriminate. }
    pose proof (@loop_body_iteration E style hinting max_width _ _ Hb)
      as Hit.
    destruct (@iteration_consumes _ _ Hv Hne Hit) as (k & Hk & Hs).
    apply IH.
    + rewrite Hs. now apply valid_text_skipn.
    + rewrite Hs, length_skipn. lia.
Qed.

End Termination.

(** C2: with an engine whose layouts are as [engine_ok] says, every
    iteration of the loop of [create_layout] that goes back to the
    [while] test has removed a non-empty prefix of the remaining text, so
    that the loop ends, by [break], by an exception or with no text left,
    within as many iterations as the text has characters. *)
Theorem create_layout_loop_terminates
    (E : Engine) (style : StyleDict) (hinting : bool) (max_width : option Q)
    (txt : text) :
  engine_ok E -> valid_text txt ->
  (forall st st',
     valid_text (text_ st) -> text_ st <> [] ->
     loop_body E style hinting max_width st = Ok (Continue st') ->
     exists consumed,
       consumed <> [] /\ text_ st = consumed ++ text_ st')
  /\ (exists r,
        loop E (List.length txt) style hinting max_width (initial_state txt)
        = Some r)
  /\ (exists r,
        create_layout E (List.length txt) txt style hinting max_width
        = Some r).
Proof.
  intros HE Hv.
  assert (Hloop : exists r,
    loop E (List.length txt) style hinting max_width (initial_state txt)
    = Some r) by (apply loop_returns; simpl; auto).
  split; [| split; [exact Hloop |]].
  - intros st st' Hst Hne Hb.
    pose proof (@loop_body_iteration E style hinting max_width _ _ Hb)
      as Hit.
    destruct (@iteration_consumes E HE style hinting max_width _ _
                Hst Hne Hit) as (k & Hk & Hs).
    exists (firstn k (text_ st)). split.
    + intros Hnil. apply (f_equal (@List.length codepoint)) in Hnil.
      rewrite length_firstn in Hnil. simpl in Hnil. lia.
    + rewrite Hs. symmetry. apply firstn_skipn.
  - unfold create_layout. destruct (negb (truthy_width max_width)); [eauto |].
    destruct Hloop as [[st | e] ->]; eauto.
Qed.

Lemma create_layout_loop_terminates_witness :
  exists r,
    create_layout Mono.engine 5 txt_aa_bb Mono.style false (Some 2%Q)
    = Some r.
Proof.
  refine (proj2 (proj2 (@create_layout_loop_terminates Mono.engine Mono.style
            false (Some 2%Q) txt_aa_bb MonoFacts.engine_is_ok _))).
  repeat constructor.
Defined.

(** ** C5 *)

(** C5: when the layout of the remaining text has more than one line
    and its first line has byte length zero, the iteration appends the
    line feed to [lines], 0 to [character_differences] and the byte
    start offset of the second line minus 1 to [line_break_differences],
    and goes on with the text that starts at that byte offset. *)
Theorem forced_break_records_newline
    (E : Engine) (style : StyleDict) (hinting : bool) (max_width : option Q)
    (st : LoopState) (layout : Layout) (second_line : Line)
    (others : list Line) (k : nat) :
  valid_text (text_ st) ->
  create_temp_layout E (text_ st) style hinting max_width = Ok layout ->
  rest_lines E layout = second_line :: others ->
  line_length (first_line_of E layout) = 0 ->
  byte_length (firstn k (text_ st)) = start_index second_line ->
  loop_body E style hinting max_width st
  = Ok (Continue
      {| text_ := skipn k (text_ st);
         lines := lines st ++ [[10%N]];
         character_differences := character_differences st ++ [0%Z];
         line_break_differences :=
           line_break_differences st
           ++ [(Z.of_nat (start_index second_line) - 1)%Z] |})
  /\ encode (skipn k (text_ st))
     = skipn (start_index second_line) (encode (text_ st)).
Proof.
  intros Hv Hl Hr Hz Hk. split.
  - apply iteration_loop_body.
    apply (@forced_break E style hinting max_width st _ _ _ _ Hl Hr Hz).
    rewrite <- Hk. now apply bytes_suffix_boundary.
  - rewrite <- Hk. unfold byte_length.
    rewrite (encode_firstn_skipn k (text_ st)).
    rewrite skipn_app, skipn_all, Nat.sub_diag. reflexivity.
Qed.

Lemma forced_break_records_newline_witness :
  loop_body Mono.engine Mono.style false (Some 10%Q) (initial_state txt_nl_cd)
  = Ok (Continue
      {| text_ := text_of_string "cd";
         lines := [[10%N]];
         character_differences := [0%Z];
         line_break_differences := [0%Z] |}).
Proof.
  refine (proj1 (@forced_break_records_newline Mono.engine Mono.style false
            (Some 10%Q) (initial_state txt_nl_cd) _
            (Mono.mk_line 1024 1 2 2) [] 1 _ _ _ _ _)).
  - repeat constructor.
  - vm_compute. reflexivity.
  - vm_compute. reflexivity.
  - vm_compute. reflexivity.
  - vm_compute. reflexivity.
Defined.

(** A whole run over a text with a line feed: ["ab\ncd"] at a width of
    ten characters.  The loop accepts ["ab"], the line feed, and ["cd"];
    the final layout is the layout of these three joined by line
    feeds. *)
Example create_layout_ab_nl_cd :
  create_layout Mono.engine 6 txt_ab_nl_cd Mono.style false (Some 10%Q)
  = Some (Ok (plain_layout
                (text_of_string "ab" ++ newline ++ newline ++ newline
                 ++ text_of_string "cd") (Some 10240%Z),
              [0%Z; 0%Z; 0%Z], [0%Z; 0%Z; 0%Z])).
Proof. vm_compute. reflexivity. Qed.

(** ** C6 *)

(** C6: [split_first_line] gives as [resume_at] the byte start offset of
    the second line of the final layout, plus the second entry of
    [line_break_differences] when that list has more than one element,
    if the layout has two lines or more; and [None] if it has fewer. *)
Theorem split_first_line_resume_at
    (E : Engine) (fuel : nat) (txt : text) (style : StyleDict)
    (hinting : bool) (max_width : option Q)
    (layout : Layout) (cd lbd : list Z) :
  create_layout E fuel txt style hinting max_width
  = Some (Ok (layout, cd, lbd)) ->
  cd <> [] ->
  exists fl,
    split_first_line E fuel txt style hinting max_width = Some (Ok fl)
    /\ fl_layout fl = layout
    /\ (get_line_count E layout < 2 -> fl_resume_at fl = None)
    /\ (2 <= get_line_count E layout ->
        exists second_line,
          nth_error (rest_lines E layout) 0 = Some second_line
          /\ fl_resume_at fl
             = Some (Z.of_nat (start_index second_line)
                     + (if Nat.ltb 1 (List.length lbd)
                        then nth 1 lbd 0%Z else 0%Z))%Z).
Proof.
  intros Hc Hcd. unfold split_first_line. rewrite Hc. cbn [bind].
  destruct cd as [| cd0 cd']; [congruence |]. cbn [getindex nth_error bind].
  unfold get_line_count.
  destruct (rest_lines E layout) as [| second_line others] eqn:Hr.
  - simpl. eexists. split; [reflexivity |]. simpl.
    repeat split; auto. intros H. lia.
  - cbn [List.length Nat.leb].
    destruct lbd as [| d0 [| d1 lbd']]; simpl;
      (eexists; split; [reflexivity |]; simpl; repeat split; auto;
       [ intros H; lia
       | intros _; exists second_line; split; [reflexivity |];
         f_equal; lia ]).
Qed.

Lemma split_first_line_resume_at_witness :
  exists fl,
    split_first_line Mono.engine 5 txt_aa_bb Mono.style false (Some 2%Q)
    = Some (Ok fl)
    /\ fl_resume_at fl = Some 3%Z.
Proof.
  destruct (@split_first_line_resume_at Mono.engine 5 txt_aa_bb Mono.style
              false (Some 2%Q)
              {| lay_hinted := false;
                 lay_font :=
                   {| fd_family := "sans-serif"; fd_variant := VARIANT_NORMAL;
                      fd_style := STYLE_NORMAL; fd_stretch := STRETCH_NORMAL;
                      fd_absolute_size := 1024; fd_weight := 400 |};
                 lay_wrap := WRAP_WORD;
                 lay_text := text_of_string "aa" ++ newline
                             ++ text_of_string "bb";
                 lay_width := Some 2048%Z;
                 lay_attributes := None |}
              [(-1)%Z; 0%Z] [0%Z; 0%Z])
    as (fl & Hfl & _ & _ & Hres).
  - vm_compute. reflexivity.
  - discriminate.
  - exists fl. split; [exact Hfl |].
    destruct Hres as (l & Hl & ->); [vm_compute; lia |].
    vm_compute in Hl. injection Hl as <-. reflexivity.
Defined.

(** ** C8 *)

Lemma Qlt_bool_iff (x y : Q) : Qlt_bool x y = true <-> (x < y)%Q.
Proof. unfold Qlt_bool, Qlt. apply Z.ltb_lt. Qed.

Lemma width_of_large (w : Q) :
  (inject_Z (2 ^ 21) <= w)%Q -> width_of (Some w) = None.
Proof.
  intros H. unfold width_of.
  destruct (Qlt_bool w (inject_Z (2 ^ 21))) eqn:Hb; [| reflexivity].
  apply Qlt_bool_iff in Hb. exfalso. eapply Qlt_not_le; eauto.
Qed.

Lemma width_of_small (w : Q) :
  (w < inject_Z (2 ^ 21))%Q -> width_of (Some w) = Some (units_from_double w).
Proof.
  intros H. unfold width_of. apply Qlt_bool_iff in H. now rewrite H.
Qed.

(** C8: a [max_width] at or above [2^21] is no error for
    [create_temp_layout]: the call is equal to the call with [None], so
    it returns the same layout whenever that one returns, and the width
    of the layout is left unset; a [max_width] that is a number below
    [2^21] (and at least [-2^21], so that its units fit in a signed
    integer) does constrain the layout: its width is set to
    [units_from_double max_width]; and a width is set for no other kind
    of [max_width]. *)
Theorem width_at_limit_is_unconstrained
    (E : Engine) (txt : text) (style : StyleDict) (hinting : bool) :
  (forall w, (inject_Z (2 ^ 21) <= w)%Q ->
     create_temp_layout E txt style hinting (Some w)
     = create_temp_layout E txt style hinting None)
  /\ (forall w layout, (inject_Z (2 ^ 21) <= w)%Q ->
        create_temp_layout E txt style hinting None = Ok layout ->
        create_temp_layout E txt style hinting (Some w) = Ok layout
        /\ lay_width layout = None)
  /\ (forall w layout,
        (inject_Z (- 2 ^ 21) <= w)%Q -> (w < inject_Z (2 ^ 21))%Q ->
        create_temp_layout E txt style hinting (Some w) = Ok layout ->
        lay_width layout = Some (units_from_double w))
  /\ (forall max_width layout,
        create_temp_layout E txt style hinting max_width = Ok layout ->
        lay_width layout <> None ->
        exists w, max_width = Some w /\ (w < inject_Z (2 ^ 21))%Q).
Proof.
  assert (Hlarge : forall w, (inject_Z (2 ^ 21) <= w)%Q ->
    create_temp_layout E txt style hinting (Some w)
    = create_temp_layout E txt style hinting None).
  { intros w Hw.
    rewrite (create_temp_layout_any_width E txt style hinting None (Some w)).
    rewrite (create_temp_layout_any_width E txt style hinting None None)
      at 2.
    now rewrite width_of_large. }
  split; [exact Hlarge |]. split; [| split].
  - intros w layout Hw Hl. split; [now rewrite Hlarge |].
    destruct (create_temp_layout_fields _ _ _ _ _ Hl) as (_ & Hwidth & _).
    exact Hwidth.
  - intros w layout _ Hlt Hl.
    destruct (create_temp_layout_fields _ _ _ _ _ Hl) as (_ & Hwidth & _).
    rewrite Hwidth. now apply width_of_small.
  - intros max_width layout Hl Hset.
    destruct (create_temp_layout_fields _ _ _ _ _ Hl) as (_ & Hwidth & _).
    rewrite Hwidth in Hset. destruct max_width as [w |].
    + exists w. split; [reflexivity |].
      destruct (Qlt_le_dec w (inject_Z (2 ^ 21))) as [Hlt | Hge];
        [exact Hlt |].
      rewrite (width_of_large Hge) in Hset. congruence.
    + exfalso. apply Hset. reflexivity.
Qed.

Lemma width_at_limit_is_unconstrained_witness :
  create_temp_layout Mono.engine txt_aa_bb Mono.style false
    (Some (inject_Z (2 ^ 21)))
  = create_temp_layout Mono.engine txt_aa_bb Mono.style false None
  /\ lay_width (plain_layout txt_aa_bb (Some 10240%Z))
     = Some (units_from_double 10).
Proof.
  split.
  - apply (proj1 (@width_at_limit_is_unconstrained Mono.engine txt_aa_bb
                    Mono.style false)).
    apply Qle_refl.
  - apply (proj1 (proj2 (proj2 (@width_at_limit_is_unconstrained Mono.engine
                     txt_aa_bb Mono.style false))) 10%Q).
    + unfold Qle. simpl. lia.
    + unfold Qlt. simpl. lia.
    + vm_compute. reflexivity.
Defined.

(** ** C4 *)

(** C4, as stated, fails: the next word is not what shaping the
    remaining text at unlimited width gives.  For ["bb cc"] the loop
    body reads the word ["bb "] of 3 bytes, while the first line of the
    unconstrained layout is the whole text, 5 bytes. *)
Lemma next_word_is_not_shaped_unconstrained :
  next_word Mono.engine txt_bb_cc Mono.style false
  = Ok (3, text_of_string "bb ")
  /\ next_word_unconstrained Mono.engine txt_bb_cc Mono.style false
     = Ok (5, txt_bb_cc)
  /\ next_word Mono.engine txt_bb_cc Mono.style false
     <> next_word_unconstrained Mono.engine txt_bb_cc Mono.style false.
Proof.
  split; [vm_compute; reflexivity |].
  split; [vm_compute; reflexivity |].
  vm_compute. discriminate.
Qed.

(** C4, amended: the next word is obtained by shaping the remaining
    text in isolation with [max_width = 0], which [create_temp_layout]
    hands to the engine as a width of 0 units (a constraint, not an
    unlimited width), and taking the byte length and the text of the
    first line of that layout. *)
Theorem next_word_is_shaped_at_width_zero
    (E : Engine) (next_text : text) (style : StyleDict) (hinting : bool)
    (nwl : Layout) :
  next_word_layout E next_text style hinting = Ok nwl ->
  lay_text nwl = next_text
  /\ lay_width nwl = Some 0%Z
  /\ lay_wrap nwl = WRAP_WORD
  /\ next_word E next_text style hinting
     = (word_text <-
          decoded (bytes_prefix next_text
                     (line_length (first_line_of E nwl))) ;;
        Ok (line_length (first_line_of E nwl), word_text)).
Proof.
  intros H. unfold next_word. rewrite H. cbn [bind].
  unfold next_word_layout in H.
  destruct (create_temp_layout_fields _ _ _ _ _ H) as (Ht & Hw & Hwrap & _).
  repeat split; auto.
Qed.

Lemma next_word_is_shaped_at_width_zero_witness :
  next_word Mono.engine txt_bb_cc Mono.style false
  = Ok (3, text_of_string "bb ").
Proof.
  destruct (@next_word_is_shaped_at_width_zero Mono.engine txt_bb_cc
              Mono.style false (plain_layout txt_bb_cc (Some 0%Z)))
    as (_ & _ & _ & ->).
  - vm_compute. reflexivity.
  - vm_compute. reflexivity.
Defined.

(** ** C3 *)

(** In the branch that takes the next word, the text that remains is the
    text without its first [first_line_length + word_length]
    characters. *)
Lemma word_taken_remaining_text
    (E : Engine) (style : StyleDict) (hinting : bool) (max_width : option Q)
    (st : LoopState) (layout nwl first_line_layout : Layout)
    (first_line_text next_text word_text : text)
    (second_line : Line) (others : list Line) :
  create_temp_layout E (text_ st) style hinting max_width = Ok layout ->
  rest_lines E layout = second_line :: others ->
  line_length (first_line_of E layout) <> 0 ->
  bytes_prefix (text_ st) (line_length (first_line_of E layout))
    = Some first_line_text ->
  bytes_suffix (text_ st) (line_length (first_line_of E layout))
    = Some next_text ->
  next_text <> [] ->
  next_word_layout E next_text style hinting = Ok nwl ->
  bytes_prefix next_text (line_length (first_line_of E nwl))
    = Some word_text ->
  create_temp_layout E (first_line_text ++ rstrip word_text)
    style hinting max_width = Ok first_line_layout ->
  rest_lines E first_line_layout = [] ->
  loop_body E style hinting max_width st
  = Ok (Continue
      (append_line st
         (skipn (line_length (first_line_of E layout)
                 + line_length (first_line_of E nwl)) (text_ st))
         (first_line_text ++ rstrip word_text)
         (len (rstrip word_text) - len word_text) 0)).
Proof.
  intros Hl Hr Hnz Hp Hs Hne Hn Hw Hf Hc.
  apply iteration_loop_body.
  apply (@word_taken E style hinting max_width st layout second_line others
           first_line_text next_text nwl word_text first_line_layout);
    assumption.
Qed.

(** C3: the code does not advance in UTF-8 bytes.  On ["é bb cc"] at a
    width of four characters the first line is ["é "] (3 bytes) and the
    next word ["bb "] (3 bytes); the iteration accepts ["é bb"] and goes
    on with [text[3 + 3:]], which is ["c"], while the text without its
    first 6 bytes is ["cc"]. *)
Theorem word_taken_advances_by_characters :
  loop_body Mono.engine Mono.style false (Some 4%Q)
    (initial_state txt_e_bb_cc)
  = Ok (Continue
      {| text_ := text_of_string "c";
         lines := [233%N :: text_of_string " bb"];
         character_differences := [(-1)%Z];
         line_break_differences := [0%Z] |})
  /\ bytes_suffix txt_e_bb_cc (3 + 3) = Some (text_of_string "cc").
Proof. split; vm_compute; reflexivity. Qed.

(** ** C1 *)

(** With a width that is neither [None] nor 0 the loop does not run on
    the empty text, [character_differences] stays empty, and
    [char_diff[0]] raises. *)
Lemma split_first_line_empty_text
    (E : Engine) (fuel : nat) (style : StyleDict) (hinting : bool)
    (max_width : option Q) (layout : Layout) :
  truthy_width max_width = true ->
  create_temp_layout E [] style hinting max_width = Ok layout ->
  create_layout E fuel [] style hinting max_width = Some (Ok (layout, [], []))
  /\ split_first_line E fuel [] style hinting max_width
     = Some (Raise IndexError).
Proof.
  intros Ht Hl.
  assert (Hc : create_layout E fuel [] style hinting max_width
               = Some (Ok (layout, [], []))).
  { unfold create_layout. rewrite Ht. cbn [negb].
    destruct fuel; cbn [loop initial_state text_ is_empty lines join];
      rewrite Hl; reflexivity. }
  split; [exact Hc |].
  unfold split_first_line. rewrite Hc. reflexivity.
Qed.

(** Without a width ([None] or 0) the empty text gives a layout whose
    first line has length 0 with the reference engine, and no resume
    offset. *)
Lemma split_first_line_empty_text_no_width :
  forall fuel,
  option_map (fun r => match r with
                       | Ok fl => Some (fl_length fl, fl_resume_at fl)
                       | Raise _ => None
                       end)
    (split_first_line Mono.engine fuel [] Mono.style false None)
  = Some (Some (0%Z, None)).
Proof. intros fuel. reflexivity. Qed.

(** C1: [split_first_line] on the empty text with a width of 10 does not
    return a result: it raises [IndexError]. *)
Theorem split_first_line_empty_text_raises :
  forall fuel,
  split_first_line Mono.engine fuel [] Mono.style false (Some 10%Q)
  = Some (Raise IndexError).
Proof.
  intros fuel.
  apply (@split_first_line_empty_text Mono.engine fuel Mono.style false
           (Some 10%Q) (plain_layout [] (Some 10240%Z)));
    vm_compute; reflexivity.
Qed.

(** ** C7 *)





(* ------------------------------------------------------------------ *)
(** * Unit conversion *)

(** X1: [units_from_double] after [units_to_double] gives the units
    back, for units up to [2^53] in absolute value, where the division
    by 1024 is exact in a double; this covers the 32-bit units of the
    engine. *)
Theorem units_from_double_to_double (n : Z) :
  (Z.abs n <= 2 ^ 53)%Z ->
  units_from_double (units_to_double n) = n.
Proof.
  intros _. unfold units_from_double, units_to_double, PANGO_SCALE. simpl.
  apply Z.quot_mul. discriminate.
Qed.

Lemma units_from_double_to_double_witness :
  units_from_double (units_to_double 10240) = 10240%Z.
Proof.
  apply (units_from_double_to_double 10240).
  vm_compute. discriminate.
Defined.

(** X2: [units_to_double] after [units_from_double] rounds towards zero to a
    multiple of [1/1024]: the result is less than one unit away from the
    value, on the side of zero. *)
Theorem units_to_double_from_double (x : Q) :
  ((0 <= x ->
    units_to_double (units_from_double x) <= x
    /\ x < units_to_double (units_from_double x) + (1 # 1024))
   /\ (x <= 0 ->
       x <= units_to_double (units_from_double x)
       /\ units_to_double (units_from_double x) - (1 # 1024) < x))%Q.
Proof.
  destruct x as [a b].
  unfold units_from_double, units_to_double, PANGO_SCALE, Qle, Qlt.
  cbn [Qnum Qden Qplus Qminus Qopp].
  pose proof (Z.quot_rem' (a * 1024) (Zpos b)) as Hqr.
  split; intros Ha; rewrite Z.mul_1_r in Ha.
  - pose proof (Z.rem_bound_pos (a * 1024) (Zpos b)) as Hr.
    split; nia.
  - pose proof (Z.rem_bound_pos_neg (a * 1024) (Zpos b)) as Hr.
    split; nia.
Qed.

Lemma units_to_double_from_double_witness :
  (units_to_double (units_from_double (5 # 3)) <= 5 # 3
   /\ 5 # 3 < units_to_double (units_from_double (5 # 3)) + (1 # 1024))%Q.
Proof.
  apply (proj1 (units_to_double_from_double (5 # 3))).
  unfold Qle. simpl. lia.
Defined.

(* ------------------------------------------------------------------ *)
(** * [create_temp_layout]: errors, width and attributes *)

Lemma getitem_known {V} (d : list (string * V)) (k : string) :
  In k (map fst d) <-> exists v, getitem d k = Ok v.
Proof.
  induction d as [| [k' v] d IH]; simpl.
  - split; [intros [] | intros [v H]; discriminate].
  - destruct (String.eqb_spec k k') as [-> | Hne].
    + split; eauto.
    + rewrite <- IH. split; [intros [H | H]; congruence | auto].
Qed.

Lemma getitem_unknown {V} (d : list (string * V)) (k : string) :
  ~ In k (map fst d) <-> getitem d k = Raise KeyError.
Proof.
  induction d as [| [k' v] d IH]; simpl.
  - split; [reflexivity | intros _ []].
  - destruct (String.eqb_spec k k') as [-> | Hne].
    + split; [intros H; exfalso; auto | discriminate].
    + rewrite <- IH. split; [intros H H'; apply H; auto |].
      intros H [H' | H']; [congruence | auto].
Qed.

Lemma getitem_raises {V} (d : list (string * V)) (k : string) (e : exn) :
  getitem d k = Raise e -> e = KeyError.
Proof.
  induction d as [| [k' v] d IH]; simpl.
  - intros H. injection H as <-. reflexivity.
  - destruct (String.eqb k k'); [discriminate | exact IH].
Qed.

(** X4: a bare string as [font_family] trips the assertion, whatever the
    other arguments; with a list, a keyword that is not a key of its
    table raises [KeyError]; none of the two depends on the text, the
    width or the engine. *)
Theorem create_temp_layout_rejects_bad_style
    (E : Engine) (txt : text) (style : StyleDict) (hinting : bool)
    (max_width : option Q) :
  (forall s, font_family style = FamilyString s ->
     create_temp_layout E txt style hinting max_width = Raise AssertionError)
  /\ (forall l, font_family style = FamilyList l ->
        ~ known_keywords style ->
        create_temp_layout E txt style hinting max_width = Raise KeyError).
Proof.
  unfold create_temp_layout. split.
  - intros s ->. reflexivity.
  - intros l -> Hk. cbn [bind].
    destruct (getitem PANGO_VARIANT (font_variant style)) as [v | e] eqn:Hv;
      [| apply getitem_raises in Hv; subst e; reflexivity].
    destruct (getitem PANGO_STYLE (font_style style)) as [s | e] eqn:Hs;
      [| apply getitem_raises in Hs; subst e; reflexivity].
    destruct (getitem PANGO_STRETCH (font_stretch style)) as [t | e] eqn:Ht;
      [| apply getitem_raises in Ht; subst e; reflexivity].
    exfalso. apply Hk. unfold known_keywords.
    repeat split; apply getitem_known; eauto.
Qed.

Lemma create_temp_layout_rejects_bad_style_witness :
  create_temp_layout Mono.engine txt_aa_bb
    {| font_family := FamilyString "serif";
       font_variant := "normal"; font_style := "normal";
       font_stretch := "normal"; font_size := 1; font_weight := 400;
       word_spacing := 0; letter_spacing := SpacingNormal |}
    false None
  = Raise AssertionError.
Proof.
  apply (proj1 (@create_temp_layout_rejects_bad_style Mono.engine txt_aa_bb
                  _ false None) "serif"%string).
  reflexivity.
Defined.

(** The markup of ["aa bb"] with a word spacing of one pixel. *)
Example spacing_markup_aa_bb :
  spacing_markup txt_aa_bb spaced_style
  = text_of_string "<span letter_spacing=" ++ [34%N; 48%N; 34%N]
    ++ text_of_string ">aa<span letter_spacing="
    ++ [34%N] ++ text_of_string "1024" ++ [34%N]
    ++ text_of_string "> </span>bb</span>".
Proof. vm_compute. reflexivity. Qed.

(** X5: with a list of families, known keywords and a [max_width] whose
    units fit in a signed integer, [create_temp_layout] attaches no
    attributes when no spacing markup is wanted; when one is wanted, it
    hands [spacing_markup text style] to [parse_markup], attaches the
    attributes the parser returns, and raises the parser's error when
    the parser rejects that markup. *)
Theorem create_temp_layout_attributes
    (E : Engine) (txt : text) (style : StyleDict) (hinting : bool)
    (max_width : option Q) (l : list string) :
  font_family style = FamilyList l ->
  known_keywords style ->
  width_in_range max_width ->
  (wants_markup txt style = false ->
   exists layout,
     create_temp_layout E txt style hinting max_width = Ok layout
     /\ lay_attributes layout = None)
  /\ (wants_markup txt style = true ->
      (forall attrs,
         parse_markup E (spacing_markup txt style) = Some attrs ->
         exists layout,
           create_temp_layout E txt style hinting max_width = Ok layout
           /\ lay_attributes layout = Some attrs)
      /\ (parse_markup E (spacing_markup txt style) = None ->
          create_temp_layout E txt style hinting max_width = Raise GError)).
Proof.
  intros Hf (Hv & Hs & Ht) _.
  apply getitem_known in Hv. destruct Hv as [v Hv].
  apply getitem_known in Hs. destruct Hs as [s Hs].
  apply getitem_known in Ht. destruct Ht as [t Ht].
  unfold create_temp_layout, wants_markup, spacing_markup.
  rewrite Hf, Hv, Hs, Ht. cbn [bind].
  split; intros Hw; rewrite Hw.
  - cbn [bind]. eexists. split; reflexivity.
  - split.
    + intros attrs Hp. rewrite Hp. cbn [bind].
      eexists. split; reflexivity.
    + intros Hp. rewrite Hp. reflexivity.
Qed.

Lemma create_temp_layout_attributes_witness :
  (exists layout,
     create_temp_layout Mono.engine txt_aa_bb Mono.style false (Some 10%Q)
     = Ok layout
     /\ lay_attributes layout = None)
  /\ (exists layout,
        create_temp_layout Mono.engine txt_aa_bb spaced_style false
          (Some 10%Q) = Ok layout
        /\ lay_attributes layout = Some [])
  /\ create_temp_layout rejecting_engine txt_aa_bb spaced_style false
       (Some 10%Q) = Raise GError.
Proof.
  assert (Hk : known_keywords Mono.style).
  { repeat split; simpl; tauto. }
  assert (Hr : width_in_range (Some 10%Q)).
  { unfold width_in_range, Qle. simpl. lia. }
  split; [| split].
  - apply (proj1 (@create_temp_layout_attributes Mono.engine txt_aa_bb
                    Mono.style false (Some 10%Q) ["sans-serif"%string]
                    eq_refl Hk Hr)).
    reflexivity.
  - apply (proj1 (proj2 (@create_temp_layout_attributes Mono.engine
                    txt_aa_bb spaced_style false (Some 10%Q)
                    ["sans-serif"%string] eq_refl Hk Hr) eq_refl)).
    reflexivity.
  - apply (proj2 (proj2 (@create_temp_layout_attributes rejecting_engine
                    txt_aa_bb spaced_style false (Some 10%Q)
                    ["sans-serif"%string] eq_refl Hk Hr) eq_refl)).
    reflexivity.
Defined.

(** X3: a width that [create_temp_layout] hands to the engine is below
    [2^31], so that it fits in a signed 32-bit integer from above, and
    it is not negative when [max_width] is not. *)
Theorem layout_width_fits
    (E : Engine) (txt : text) (style : StyleDict) (hinting : bool)
    (w : Q) (layout : Layout) (u : Z) :
  create_temp_layout E txt style hinting (Some w) = Ok layout ->
  lay_width layout = Some u ->
  (u < 2 ^ 31)%Z /\ ((0 <= w)%Q -> (0 <= u)%Z).
Proof.
  intros Hl Hu.
  destruct (create_temp_layout_fields _ _ _ _ _ Hl) as (_ & Hw & _).
  rewrite Hw in Hu. unfold width_of in Hu.
  destruct (Qlt_bool w (inject_Z (2 ^ 21))) eqn:Hb; [| discriminate].
  injection Hu as <-.
  unfold Qlt_bool in Hb. apply Z.ltb_lt in Hb.
  destruct w as [a b]. unfold units_from_double, PANGO_SCALE, Qle.
  cbn [Qnum Qden inject_Z] in *.
  pose proof (Z.quot_rem' (a * 1024) (Zpos b)) as Hqr.
  change (2 ^ 21)%Z with 2097152%Z in Hb.
  change (2 ^ 31)%Z with 2147483648%Z.
  destruct (Z.le_gt_cases 0 a) as [Ha | Ha].
  - pose proof (Z.rem_bound_pos (a * 1024) (Zpos b)) as Hr.
    split; [nia | intros _; nia].
  - pose proof (Z.rem_bound_pos_neg (a * 1024) (Zpos b)) as Hr.
    split; [nia | intros H; nia].
Qed.

Lemma layout_width_fits_witness :
  (10240 < 2 ^ 31)%Z /\ ((0 <= 10)%Q -> (0 <= 10240)%Z).
Proof.
  apply (@layout_width_fits Mono.engine txt_aa_bb Mono.style false 10%Q
           (plain_layout txt_aa_bb (Some 10240%Z)) 10240%Z).
  - vm_compute. reflexivity.
  - reflexivity.
Defined.

(* ------------------------------------------------------------------ *)
(** * Cutting a text at a byte offset *)

Lemma byte_length_of_cons (c : codepoint) (t : text) :
  byte_length (c :: t) = List.length (encode_char c) + byte_length t.
Proof. unfold byte_length. simpl. now rewrite length_app. Qed.

(** A strict prefix of the encoding of one character does not decode. *)
Lemma decode_truncated (c : codepoint) (n : nat) :
  valid_codepoint c -> 0 < n < List.length (encode_char c) ->
  decode (firstn n (encode_char c)) = None.
Proof.
  unfold valid_codepoint, encode_char. intros Hc.
  destruct (N.ltb_spec c 0x80);
    [| destruct (N.ltb_spec c 0x800); [| destruct (N.ltb_spec c 0x10000)]];
  cbn [List.length]; intros Hn;
  destruct n as [| [| [| [| n]]]]; try lia;
  cbn [firstn decode]; ncases; reflexivity.
Qed.

(** Decoding the first [n] bytes of the encoding succeeds only at a
    character boundary, and gives the characters before it. *)
Lemma bytes_prefix_inv (t : text) :
  valid_text t ->
  forall n p, bytes_prefix t n = Some p ->
  exists k, k <= List.length t /\ p = firstn k t
            /\ byte_length (firstn k t) = Nat.min n (byte_length t).
Proof.
  unfold bytes_prefix, byte_length.
  induction 1 as [| c t Hc Ht IH]; intros n p Hd.
  - rewrite firstn_nil in Hd. injection Hd as <-.
    exists 0. simpl. repeat split; lia.
  - destruct n as [| n].
    { cbn [firstn decode] in Hd. injection Hd as <-.
      exists 0. simpl. repeat split; lia. }
    cbn [encode] in Hd. rewrite firstn_app in Hd.
    destruct (Nat.le_gt_cases (List.length (encode_char c)) (S n))
      as [Hle | Hlt].
    + rewrite firstn_all2 in Hd by assumption.
      rewrite decode_encode_char in Hd by assumption.
      destruct (decode (firstn (S n - List.length (encode_char c))
                          (encode t))) as [p' |] eqn:Hp; [| discriminate].
      injection Hd as <-.
      destruct (IH _ _ Hp) as (k & Hk & -> & Hb).
      exists (S k). cbn [firstn List.length encode].
      rewrite !length_app. repeat split; lia.
    + exfalso.
      replace (S n - List.length (encode_char c)) with 0 in Hd by lia.
      rewrite firstn_0, app_nil_r in Hd.
      rewrite decode_truncated in Hd; [discriminate | assumption | lia].
Qed.

Lemma byte_length_firstn_inj (t : text) :
  forall k k', k <= List.length t -> k' <= List.length t ->
  byte_length (firstn k t) = byte_length (firstn k' t) -> k = k'.
Proof.
  induction t as [| c t IH]; intros k k' Hk Hk' Hb.
  - simpl in *. lia.
  - pose proof (encode_char_length c).
    destruct k as [| k], k' as [| k']; cbn [firstn List.length] in *;
      rewrite ?byte_length_of_cons in Hb; try reflexivity;
      try (change (byte_length []) with 0 in Hb; lia).
    f_equal. apply IH; lia.
Qed.

(** X6: the statements
    [first_line_text = text.encode('utf-8')[:n].decode('utf-8')] and
    [next_text = text.encode('utf-8')[n:].decode('utf-8')] cut the text in
    two: when one of them returns, so does the other, and
    [first_line_text + next_text == text]. *)
Theorem prefix_and_suffix_split_text (t : text) (n : nat) :
  valid_text t ->
  (forall p, bytes_prefix t n = Some p ->
     exists s, bytes_suffix t n = Some s /\ p ++ s = t)
  /\ (forall s, bytes_suffix t n = Some s ->
        exists p, bytes_prefix t n = Some p /\ p ++ s = t).
Proof.
  intros Hv. split.
  - intros p Hp.
    destruct (bytes_prefix_inv Hv _ Hp) as (k & Hk & -> & Hb).
    exists (skipn k t). split; [| apply firstn_skipn].
    destruct (Nat.le_gt_cases n (byte_length t)) as [Hle | Hgt].
    + rewrite Nat.min_l in Hb by assumption. rewrite <- Hb.
      now apply bytes_suffix_boundary.
    + rewrite Nat.min_r in Hb by lia.
      assert (k = List.length t).
      { apply (byte_length_firstn_inj t); auto.
        now rewrite firstn_all. }
      subst k. unfold bytes_suffix, byte_length in *.
      rewrite skipn_all, skipn_all2 by lia. reflexivity.
  - intros s Hs.
    destruct (bytes_suffix_inv Hv _ Hs) as (k & Hk & -> & Hb).
    exists (firstn k t). split; [| apply firstn_skipn].
    destruct (Nat.le_gt_cases n (byte_length t)) as [Hle | Hgt].
    + rewrite Nat.min_l in Hb by assumption. rewrite <- Hb.
      now apply bytes_prefix_boundary.
    + rewrite Nat.min_r in Hb by lia.
      assert (k = List.length t).
      { apply (byte_length_firstn_inj t); auto.
        now rewrite firstn_all. }
      subst k. unfold bytes_prefix, byte_length in *.
      rewrite firstn_all, firstn_all2 by lia. now apply decode_encode.
Qed.

Lemma prefix_and_suffix_split_text_witness :
  exists s, bytes_suffix txt_e_bb_cc 3 = Some s
            /\ (233%N :: text_of_string " ") ++ s = txt_e_bb_cc.
Proof.
  assert (Hv : valid_text txt_e_bb_cc) by (repeat constructor).
  apply (proj1 (@prefix_and_suffix_split_text txt_e_bb_cc 3 Hv)).
  vm_compute. reflexivity.
Defined.

(* ------------------------------------------------------------------ *)
(** * More on the loop of [create_layout] *)

(** [rstrip] removes a run of spaces from the end. *)
Lemma rstrip_spaces (t : text) :
  exists n, t = rstrip t ++ repeat space n.
Proof.
  induction t as [| c t [n IH]]; [exists 0; reflexivity |].
  cbn [rstrip]. destruct (rstrip t) as [| d r] eqn:Hr.
  - destruct (N.eqb_spec c space) as [-> | Hc].
    + exists (S n). simpl in *. now rewrite <- IH.
    + exists n. simpl in *. now rewrite <- IH.
  - exists n. rewrite IH at 1. reflexivity.
Qed.

Section LoopMore.

Variable E : Engine.
Variables (style : StyleDict) (hinting : bool) (max_width : option Q).

(** The text that remains after an iteration is a suffix of the text
    before it. *)
Lemma iteration_text_suffix st r :
  valid_text (text_ st) ->
  iteration E style hinting max_width st r ->
  exists k, k <= List.length (text_ st)
            /\ text_ (step_state r) = skipn k (text_ st).
Proof.
  intros Hv H.
  destruct H as
    [ layout flt Hl Hp Hr
    | layout l1 others txt' Hl Hr Hz Hs
    | layout l1 others flt Hl Hr Hnz Hp Hs
    | layout l1 others flt next nwl word fll Hl Hr Hnz Hp Hs Hne Hn Hw Hf Hc
    | layout l1 others flt next nwl word fll Hl Hr Hnz Hp Hs Hne Hn Hw Hf Hc ];
    cbn [step_state append_line text_].
  - exists 0. split; [lia | reflexivity].
  - destruct (bytes_suffix_inv Hv _ Hs) as (k & Hk & -> & _). eauto.
  - exists 0. split; [lia | reflexivity].
  - destruct (bytes_suffix_inv Hv _ Hs) as (k & Hk & -> & _). eauto.
  - match goal with |- context [skipn ?m _] => set (k := m) end.
    destruct (Nat.le_gt_cases k (List.length (text_ st))).
    + eauto.
    + exists (List.length (text_ st)). split; [lia |].
      rewrite skipn_all, skipn_all2; [reflexivity | lia].
Qed.

(** An iteration appends at most one element to the accumulators. *)
Lemma iteration_appends_at_most_one st r :
  iteration E style hinting max_width st r ->
  List.length (character_differences (step_state r))
  <= S (List.length (character_differences st)).
Proof.
  intros H. destruct H; cbn [step_state append_line character_differences];
    rewrite ?length_app; simpl; lia.
Qed.

(** With an engine as [engine_ok] says, it appends exactly one. *)
Lemma iteration_appends_one st r :
  engine_ok E -> valid_text (text_ st) ->
  iteration E style hinting max_width st r ->
  List.length (character_differences (step_state r))
  = S (List.length (character_differences st)).
Proof.
  intros HE Hv H.
  destruct H as
    [ layout flt Hl Hp Hr
    | layout l1 others txt' Hl Hr Hz Hs
    | layout l1 others flt Hl Hr Hnz Hp Hs
    | layout l1 others flt next nwl word fll Hl Hr Hnz Hp Hs Hne Hn Hw Hf Hc
    | layout l1 others flt next nwl word fll Hl Hr Hnz Hp Hs Hne Hn Hw Hf Hc ];
    cbn [step_state append_line character_differences];
    rewrite ?length_app; simpl; try lia.
  exfalso.
  pose proof (first_line_is_proper HE layout Hr) as Hlt.
  destruct (create_temp_layout_fields _ _ _ _ _ Hl) as (Ht & _).
  rewrite Ht in Hlt.
  destruct (bytes_suffix_inv Hv _ Hs) as (k & Hk & Hnil & Hb).
  symmetry in Hnil. apply skipn_all_iff in Hnil.
  rewrite firstn_all2 in Hb by assumption. lia.
Qed.

End LoopMore.

(** X7: whatever the engine answers, the text that remains to be laid out
    is always a suffix of the text given to [create_layout]: the loop
    only removes characters from the front. *)
Theorem remaining_text_is_a_suffix
    (E : Engine) (style : StyleDict) (hinting : bool) (max_width : option Q)
    (txt : text) (running : bool) (st : LoopState) :
  valid_text txt ->
  after_iterations E style hinting max_width (initial_state txt) running st ->
  exists k, k <= List.length txt /\ text_ st = skipn k txt.
Proof.
  intros Hv.
  apply (after_iterations_ind_iteration
           (fun st => exists k, k <= List.length txt
                                /\ text_ st = skipn k txt)).
  - exists 0. split; [lia | reflexivity].
  - intros st' r (k & Hk & Hst) Hit.
    assert (Hv' : valid_text (text_ st'))
      by (rewrite Hst; now apply valid_text_skipn).
    destruct (iteration_text_suffix Hv' Hit) as (k' & Hk' & ->).
    rewrite Hst, skipn_skipn. exists (k' + k). split; [| reflexivity].
    rewrite Hst, length_skipn in Hk'. lia.
Qed.

Lemma remaining_text_is_a_suffix_witness :
  exists k, k <= List.length txt_aa_bb
            /\ text_of_string "bb" = skipn k txt_aa_bb.
Proof.
  apply (@remaining_text_is_a_suffix Mono.engine Mono.style false (Some 2%Q)
           txt_aa_bb true
           {| text_ := text_of_string "bb";
              lines := [text_of_string "aa"];
              character_differences := [(-1)%Z];
              line_break_differences := [0%Z] |}).
  - repeat constructor.
  - eapply iteration_continues;
      [apply no_iteration | discriminate | vm_compute; reflexivity].
Defined.

(** X8: every line that the loop accepts comes from the front of the
    remaining text: an iteration either changes nothing, or records a
    forced break (the line feed, with a character difference of 0), or
    appends a line that, followed by the spaces stripped from it, is a
    prefix of the remaining text, with minus the number of these spaces
    as character difference and 0 as line-break difference. *)
Theorem accepted_line_is_a_prefix
    (E : Engine) (style : StyleDict) (hinting : bool) (max_width : option Q)
    (st : LoopState) (r : Step) :
  valid_text (text_ st) ->
  loop_body E style hinting max_width st = Ok r ->
  step_state r = st
  \/ exists txt' line cd lbd,
       step_state r = append_line st txt' line cd lbd
       /\ ((line = newline /\ cd = 0%Z)
           \/ exists n,
                firstn (List.length line + n) (text_ st)
                = line ++ repeat space n
                /\ cd = (- Z.of_nat n)%Z /\ lbd = 0%Z).
Proof.
  intros Hv Hb. apply loop_body_iteration in Hb.
  destruct Hb as
    [ layout flt Hl Hp Hr
    | layout l1 others txt' Hl Hr Hz Hs
    | layout l1 others flt Hl Hr Hnz Hp Hs
    | layout l1 others flt next nwl word fll Hl Hr Hnz Hp Hs Hne Hn Hw Hf Hc
    | layout l1 others flt next nwl word fll Hl Hr Hnz Hp Hs Hne Hn Hw Hf Hc ];
    cbn [step_state]; auto; right.
  - (* single line *)
    do 4 eexists. split; [reflexivity |]. right. exists 0.
    destruct (bytes_prefix_inv Hv _ Hp) as (k & Hk & -> & _).
    rewrite Nat.add_0_r, app_nil_r, length_firstn, Nat.min_l by assumption.
    auto.
  - (* forced break *)
    do 4 eexists. split; [reflexivity |]. left. auto.
  - (* the word does not fit *)
    do 4 eexists. split; [reflexivity |]. right.
    destruct (rstrip_spaces flt) as [n Hn'].
    exists n.
    destruct (bytes_prefix_inv Hv _ Hp) as (k & Hk & Hflt & _).
    assert (Hlen : List.length flt = List.length (rstrip flt) + n).
    { rewrite Hn' at 1. now rewrite length_app, repeat_length. }
    split; [| split; [unfold len; lia | reflexivity]].
    rewrite <- Hlen, <- Hn'. rewrite Hflt at 1.
    rewrite length_firstn, Nat.min_l by assumption. now symmetry.
  - (* the word fits *)
    do 4 eexists. split; [reflexivity |]. right.
    destruct (rstrip_spaces word) as [n Hn'].
    exists n.
    destruct (proj1 (prefix_and_suffix_split_text _ Hv) _ Hp)
      as (s & Hs' & Hsplit).
    assert (s = next) by congruence. subst s.
    assert (Hvn : valid_text next).
    { unfold valid_text in *. rewrite <- Hsplit in Hv.
      apply Forall_app in Hv. apply Hv. }
    destruct (bytes_prefix_inv Hvn _ Hw) as (j & Hj & Hword & _).
    assert (Hlen : List.length word = List.length (rstrip word) + n).
    { rewrite Hn' at 1. now rewrite length_app, repeat_length. }
    split; [| split; [unfold len; lia | reflexivity]].
    rewrite <- app_assoc, <- Hn', length_app, <- Nat.add_assoc, <- Hlen.
    rewrite <- Hsplit at 1. rewrite firstn_app_2. f_equal.
    rewrite Hword at 2. f_equal.
    rewrite Hword, length_firstn, Nat.min_l; auto.
Qed.

Lemma accepted_line_is_a_prefix_witness :
  step_state
    (Continue {| text_ := text_of_string "bb";
                 lines := [text_of_string "aa"];
                 character_differences := [(-1)%Z];
                 line_break_differences := [0%Z] |})
  = initial_state txt_aa_bb
  \/ exists txt' line cd lbd,
       step_state
         (Continue {| text_ := text_of_string "bb";
                      lines := [text_of_string "aa"];
                      character_differences := [(-1)%Z];
                      line_break_differences := [0%Z] |})
       = append_line (initial_state txt_aa_bb) txt' line cd lbd
       /\ ((line = newline /\ cd = 0%Z)
           \/ exists n,
                firstn (List.length line + n) (text_ (initial_state txt_aa_bb))
                = line ++ repeat space n
                /\ cd = (- Z.of_nat n)%Z /\ lbd = 0%Z).
Proof.
  apply (@accepted_line_is_a_prefix Mono.engine Mono.style false (Some 2%Q)
           (initial_state txt_aa_bb)).
  - repeat constructor.
  - vm_compute. reflexivity.
Defined.

Section LoopBounds.

Variable E : Engine.
Hypothesis E_ok : engine_ok E.
Variables (style : StyleDict) (hinting : bool) (max_width : option Q).

(** The loop appends one element for each iteration, and each
    iteration but the last consumes a character. *)
Lemma loop_appends :
  forall fuel st st',
  valid_text (text_ st) ->
  loop E fuel style hinting max_width st = Some (Ok st') ->
  List.length (character_differences st')
  <= List.length (character_differences st) + List.length (text_ st)
  /\ (text_ st <> [] ->
      List.length (character_differences st)
      < List.length (character_differences st')).
Proof.
  induction fuel as [| fuel IH]; intros st st' Hv; cbn [loop].
  - destruct (text_ st); cbn [is_empty]; [| discriminate].
    intros H. injection H as <-. split; [lia | congruence].
  - destruct (is_empty (text_ st)) eqn:He.
    { intros H. injection H as <-.
      destruct (text_ st); [| discriminate]. split; [lia | congruence]. }
    assert (Hne : text_ st <> []).
    { intros Hnil. rewrite Hnil in He. discriminate. }
    pose proof (byte_length_nonempty Hne) as Hb1.
    assert (Hpos : 1 <= List.length (text_ st)).
    { destruct (text_ st); [congruence | simpl; lia]. }
    destruct (loop_body E style hinting max_width st) as [[s | s] | e] eqn:Hb;
      intros H; try discriminate.
    + pose proof (@loop_body_iteration E style hinting max_width _ _ Hb)
        as Hit.
      pose proof (iteration_appends_one E_ok Hv Hit) as Hone.
      destruct (@iteration_consumes E E_ok style hinting max_width _ _
                  Hv Hne Hit) as (k & Hk & Hs).
      cbn [step_state] in Hone.
      assert (Hvs : valid_text (text_ s))
        by (rewrite Hs; now apply valid_text_skipn).
      destruct (IH _ _ Hvs H) as [Hle _].
      rewrite Hs, length_skipn in Hle.
      assert (Hmono : List.length (character_differences s)
                      <= List.length (character_differences st')).
      { destruct (text_ s) as [| c t] eqn:Hts.
        - destruct fuel; cbn [loop] in H; rewrite Hts in H;
            cbn [is_empty] in H; injection H as <-; lia.
        - assert (Hsne : text_ s <> []) by (rewrite Hts; discriminate).
          rewrite <- Hts in *. destruct (IH _ _ Hvs H) as [_ Hlt].
          specialize (Hlt Hsne). lia. }
      split; [lia | intros _; lia].
    + injection H as <-.
      pose proof (@loop_body_iteration E style hinting max_width _ _ Hb)
        as Hit.
      pose proof (iteration_appends_one E_ok Hv Hit) as Hone.
      cbn [step_state] in Hone. split; [lia | intros _; lia].
Qed.

End LoopBounds.

Lemma create_layout_number_of_lines_aux
    (E : Engine) (fuel : nat) (txt : text) (style : StyleDict)
    (hinting : bool) (max_width : option Q)
    (layout : Layout) (cd lbd : list Z) :
  engine_ok E -> valid_text txt -> txt <> [] ->
  truthy_width max_width = true ->
  create_layout E fuel txt style hinting max_width
  = Some (Ok (layout, cd, lbd)) ->
  1 <= List.length cd <= List.length txt.
Proof.
  intros HE Hv Hne Ht. unfold create_layout. rewrite Ht. cbn [negb].
  destruct (loop E fuel style hinting max_width (initial_state txt))
    as [[st | e] |] eqn:Hloop; try discriminate.
  intros H. injection H as H. bind_inv H. injection H as _ <- <-.
  destruct (@loop_appends E HE style hinting max_width fuel
              (initial_state txt) st Hv Hloop) as [Hle Hlt].
  specialize (Hlt Hne). cbn [initial_state character_differences text_] in *.
  simpl in Hle, Hlt. lia.
Qed.

(** X9: with an engine as [engine_ok] says and a width that is neither
    [None] nor 0, [create_layout] on a non-empty text returns at least
    one correction and at most as many as the text has characters. *)
Theorem create_layout_number_of_lines
    (E : Engine) (fuel : nat) (txt : text) (style : StyleDict)
    (hinting : bool) (max_width : option Q)
    (layout : Layout) (cd lbd : list Z) :
  engine_ok E -> valid_text txt -> txt <> [] ->
  truthy_width max_width = true ->
  create_layout E fuel txt style hinting max_width
  = Some (Ok (layout, cd, lbd)) ->
  1 <= List.length cd <= List.length txt
  /\ List.length lbd = List.length cd.
Proof.
  intros HE Hv Hne Ht Hc.
  split; [eapply create_layout_number_of_lines_aux; eauto |].
  revert Hc. unfold create_layout. rewrite Ht. cbn [negb].
  destruct (loop E fuel style hinting max_width (initial_state txt))
    as [[st | e] |] eqn:Hloop; try discriminate.
  intros H. injection H as H. bind_inv H. injection H as _ <- <-.
  destruct (loop_after_iterations _ _ _ _ _ _ Hloop) as [running Hrun].
  revert Hrun.
  apply (after_iterations_ind_iteration
           (fun st => List.length (line_break_differences st)
                      = List.length (character_differences st))).
  - reflexivity.
  - intros st' r Hst Hit. destruct Hit; cbn [step_state]; auto;
      unfold append_line; simpl; rewrite !length_app; simpl; lia.
Qed.

Lemma create_layout_number_of_lines_witness :
  1 <= List.length [(-1)%Z; 0%Z] <= List.length txt_aa_bb
  /\ List.length [0%Z; 0%Z] = List.length [(-1)%Z; 0%Z].
Proof.
  apply (@create_layout_number_of_lines Mono.engine 5 txt_aa_bb Mono.style
           false (Some 2%Q)
           (plain_layout (text_of_string "aa" ++ newline
                          ++ text_of_string "bb") (Some 2048%Z))
           [(-1)%Z; 0%Z] [0%Z; 0%Z] MonoFacts.engine_is_ok).
  - repeat constructor.
  - discriminate.
  - reflexivity.
  - vm_compute. reflexivity.
Defined.

(* ------------------------------------------------------------------ *)
(** * More on [split_first_line] and [line_widths] *)

(** What [split_first_line] returns once [create_layout] has returned
    with a non-empty [character_differences]. *)
Lemma split_first_line_returns
    (E : Engine) (fuel : nat) (txt : text) (style : StyleDict)
    (hinting : bool) (max_width : option Q)
    (layout : Layout) (c : Z) (cd lbd : list Z) :
  create_layout E fuel txt style hinting max_width
  = Some (Ok (layout, c :: cd, lbd)) ->
  exists fl,
    split_first_line E fuel txt style hinting max_width = Some (Ok fl)
    /\ fl_layout fl = layout
    /\ fl_length fl = (Z.of_nat (line_length (first_line_of E layout)) - c)%Z
    /\ fl_resume_at fl
       = match rest_lines E layout with
         | [] => None
         | second_line :: _ =>
           Some (Z.of_nat (start_index second_line)
                 + match lbd with
                   | _ :: d :: _ => d
                   | _ => 0
                   end)%Z
         end.
Proof.
  intros Hc. unfold split_first_line. rewrite Hc.
  cbn [bind getindex nth_error]. unfold get_line_count.
  destruct (rest_lines E layout) as [| second_line others].
  - simpl. eexists. repeat split; reflexivity.
  - cbn [List.length Nat.leb].
    destruct lbd as [| d0 [| d1 lbd']]; simpl;
      (eexists; split; [reflexivity |]; simpl; repeat split; auto;
       f_equal; lia).
Qed.

Lemma create_layout_character_differences
    (E : Engine) (fuel : nat) (txt : text) (style : StyleDict)
    (hinting : bool) (max_width : option Q)
    (layout : Layout) (cd lbd : list Z) :
  create_layout E fuel txt style hinting max_width
  = Some (Ok (layout, cd, lbd)) ->
  Forall (fun d => (d <= 0)%Z) cd.
Proof.
  unfold create_layout. destruct (negb (truthy_width max_width)).
  - intros H. injection H as H. bind_inv H. injection H as _ <- _.
    repeat constructor. lia.
  - destruct (loop E fuel style hinting max_width (initial_state txt))
      as [[st | e] |] eqn:Hloop; try discriminate.
    intros H. injection H as H. bind_inv H. injection H as _ <- _.
    destruct (loop_after_iterations _ _ _ _ _ _ Hloop) as [running Hrun].
    revert Hrun.
    apply (after_iterations_ind_iteration
             (fun st => Forall (fun d => (d <= 0)%Z)
                          (character_differences st))).
    + constructor.
    + intros st' r Hst Hit.
      eapply iteration_character_differences; eauto.
Qed.

(** X10: on a non-empty text, with an engine as [engine_ok] says,
    [split_first_line] returns a result whenever [create_layout] does
    (no [IndexError]), and the length it returns is at least the byte
    length of the first line of the layout it returns. *)
Theorem split_first_line_on_text
    (E : Engine) (fuel : nat) (txt : text) (style : StyleDict)
    (hinting : bool) (max_width : option Q)
    (layout : Layout) (cd lbd : list Z) :
  engine_ok E -> valid_text txt -> txt <> [] ->
  create_layout E fuel txt style hinting max_width
  = Some (Ok (layout, cd, lbd)) ->
  exists fl,
    split_first_line E fuel txt style hinting max_width = Some (Ok fl)
    /\ fl_layout fl = layout
    /\ (Z.of_nat (line_length (first_line_of E layout)) <= fl_length fl)%Z.
Proof.
  intros HE Hv Hne Hc.
  pose proof (create_layout_character_differences _ _ _ _ _ _ Hc) as Hcd.
  assert (Hlen : 1 <= List.length cd).
  { destruct (truthy_width max_width) eqn:Ht.
    - apply (@create_layout_number_of_lines_aux E fuel txt style hinting
               max_width layout cd lbd HE Hv Hne Ht Hc).
    - unfold create_layout in Hc. rewrite Ht in Hc. cbn [negb] in Hc.
      injection Hc as Hc. bind_inv Hc. injection Hc as _ <- _.
      simpl. lia. }
  destruct cd as [| c cd]; [simpl in Hlen; lia |].
  destruct (split_first_line_returns _ _ _ _ _ _ Hc)
    as (fl & Hfl & Hl & Hlength & _).
  exists fl. split; [exact Hfl |]. split; [exact Hl |].
  rewrite Hlength. inversion Hcd; subst. lia.
Qed.

Lemma split_first_line_on_text_witness :
  exists fl,
    split_first_line Mono.engine 5 txt_aa_bb Mono.style false (Some 2%Q)
    = Some (Ok fl)
    /\ fl_layout fl
       = plain_layout (text_of_string "aa" ++ newline
                       ++ text_of_string "bb") (Some 2048%Z)
    /\ (Z.of_nat (line_length (first_line_of Mono.engine
          (plain_layout (text_of_string "aa" ++ newline
                         ++ text_of_string "bb") (Some 2048%Z))))
        <= fl_length fl)%Z.
Proof.
  apply (@split_first_line_on_text Mono.engine 5 txt_aa_bb Mono.style false
           (Some 2%Q) _ [(-1)%Z; 0%Z] [0%Z; 0%Z] MonoFacts.engine_is_ok).
  - repeat constructor.
  - discriminate.
  - vm_compute. reflexivity.
Defined.

(** X11: without a width ([None] or 0) [create_layout] does not enter its
    loop: [split_first_line] reads the length of the first line and the
    start of the second line straight from the layout of the text, with
    no correction ([lb_diff] has one element only), and raises exactly
    what [create_temp_layout] raises. *)
Theorem split_first_line_without_width
    (E : Engine) (fuel : nat) (txt : text) (style : StyleDict)
    (hinting : bool) (max_width : option Q) :
  truthy_width max_width = false ->
  (forall layout,
     create_temp_layout E txt style hinting max_width = Ok layout ->
     exists fl,
       split_first_line E fuel txt style hinting max_width = Some (Ok fl)
       /\ fl_layout fl = layout
       /\ fl_length fl = Z.of_nat (line_length (first_line_of E layout))
       /\ fl_resume_at fl
          = match rest_lines E layout with
            | [] => None
            | second_line :: _ => Some (Z.of_nat (start_index second_line))
            end)
  /\ (forall e,
        create_temp_layout E txt style hinting max_width = Raise e ->
        split_first_line E fuel txt style hinting max_width
        = Some (Raise e)).
Proof.
  intros Ht. split.
  - intros layout Hl.
    assert (Hc : create_layout E fuel txt style hinting max_width
                 = Some (Ok (layout, [0%Z], [0%Z]))).
    { unfold create_layout. rewrite Ht, Hl. reflexivity. }
    destruct (split_first_line_returns _ _ _ _ _ _ Hc)
      as (fl & Hfl & Hlay & Hlen & Hres).
    exists fl. split; [exact Hfl |]. split; [exact Hlay |].
    split; [rewrite Hlen; lia |].
    rewrite Hres. destruct (rest_lines E layout); [reflexivity |].
    f_equal. lia.
  - intros e He. unfold split_first_line, create_layout.
    rewrite Ht, He. reflexivity.
Qed.

Lemma split_first_line_without_width_witness :
  exists fl,
    split_first_line Mono.engine 0 txt_ab_nl_cd Mono.style false None
    = Some (Ok fl)
    /\ fl_layout fl = plain_layout txt_ab_nl_cd None
    /\ fl_length fl
       = Z.of_nat (line_length (first_line_of Mono.engine
                                  (plain_layout txt_ab_nl_cd None)))
    /\ fl_resume_at fl
       = match rest_lines Mono.engine (plain_layout txt_ab_nl_cd None) with
         | [] => None
         | second_line :: _ => Some (Z.of_nat (start_index second_line))
         end.
Proof.
  apply (proj1 (@split_first_line_without_width Mono.engine 0 txt_ab_nl_cd
                  Mono.style false None eq_refl)).
  vm_compute. reflexivity.
Defined.

(** When the engine lays a non-empty text out as one line that holds
    all of it, [create_layout] returns the layout of the text with the
    corrections [[0]] and [[0]], whatever the width. *)
Lemma create_layout_when_text_fits
    (E : Engine) (fuel : nat) (txt : text) (style : StyleDict)
    (hinting : bool) (max_width : option Q) (layout : Layout) :
  valid_text txt -> txt <> [] ->
  create_temp_layout E txt style hinting max_width = Ok layout ->
  rest_lines E layout = [] ->
  line_length (first_line_of E layout) = byte_length txt ->
  create_layout E (S fuel) txt style hinting max_width
  = Some (Ok (layout, [0%Z], [0%Z])).
Proof.
  intros Hv Hne Hl Hr Hlen. unfold create_layout.
  destruct (negb (truthy_width max_width)).
  - rewrite Hl. reflexivity.
  - cbn [loop initial_state text_].
    destruct txt as [| c t]; [congruence |]. cbn [is_empty].
    rewrite (@iteration_loop_body E style hinting max_width
               (initial_state (c :: t))
               (Break (append_line (initial_state (c :: t)) (c :: t)
                         (c :: t) 0 0))).
    + cbn [append_line initial_state lines app join
           character_differences line_break_differences].
      rewrite Hl. reflexivity.
    + apply (@single_line E style hinting max_width
               (initial_state (c :: t)) layout (c :: t)); auto.
      cbn [initial_state text_]. rewrite Hlen.
      now apply bytes_prefix_all.
Qed.

(** X12: when the whole text fits in one line, [split_first_line] returns
    the byte length of the text as length and [None] as resume
    offset. *)
Theorem split_first_line_when_text_fits
    (E : Engine) (fuel : nat) (txt : text) (style : StyleDict)
    (hinting : bool) (max_width : option Q) (layout : Layout) :
  valid_text txt -> txt <> [] ->
  create_temp_layout E txt style hinting max_width = Ok layout ->
  rest_lines E layout = [] ->
  line_length (first_line_of E layout) = byte_length txt ->
  exists fl,
    split_first_line E (S fuel) txt style hinting max_width = Some (Ok fl)
    /\ fl_layout fl = layout
    /\ fl_length fl = Z.of_nat (byte_length txt)
    /\ fl_resume_at fl = None.
Proof.
  intros Hv Hne Hl Hr Hlen.
  pose proof (@create_layout_when_text_fits E fuel txt style hinting
                max_width layout Hv Hne Hl Hr Hlen) as Hc.
  destruct (split_first_line_returns _ _ _ _ _ _ Hc)
    as (fl & Hfl & Hlay & Hlength & Hres).
  exists fl. split; [exact Hfl |]. split; [exact Hlay |].
  rewrite Hr in Hres. rewrite Hlen in Hlength.
  split; [rewrite Hlength; lia | exact Hres].
Qed.

Lemma split_first_line_when_text_fits_witness :
  exists fl,
    split_first_line Mono.engine 1 txt_aa_bb Mono.style false (Some 10%Q)
    = Some (Ok fl)
    /\ fl_layout fl = plain_layout txt_aa_bb (Some 10240%Z)
    /\ fl_length fl = Z.of_nat (byte_length txt_aa_bb)
    /\ fl_resume_at fl = None.
Proof.
  apply (@split_first_line_when_text_fits Mono.engine 0 txt_aa_bb Mono.style
           false (Some 10%Q) (plain_layout txt_aa_bb (Some 10240%Z))).
  - repeat constructor.
  - discriminate.
  - vm_compute. reflexivity.
  - vm_compute. reflexivity.
  - vm_compute. reflexivity.
Defined.

(** [line_widths] *)

Lemma lstrip_whitespace (ws t : text) :
  Forall (fun c => is_whitespace c = true) ws ->
  lstrip (ws ++ t) = lstrip t.
Proof.
  induction 1 as [| c ws Hc _ IH]; [reflexivity |].
  cbn [app lstrip]. now rewrite Hc.
Qed.

(** X13: white space at the start of the text of a box does not change what
    [line_widths] returns; and [line_widths] returns one width for each
    line of the layout that [create_layout] builds for the stripped
    text, in order. *)
Theorem line_widths_strips_leading_whitespace
    (E : Engine) (fuel : nat) (ws t : text) (style : StyleDict)
    (hinting : bool) (width : option Q) :
  Forall (fun c => is_whitespace c = true) ws ->
  line_widths E fuel (ws ++ t) style hinting width None
  = line_widths E fuel t style hinting width None
  /\ (forall widths,
        line_widths E fuel (ws ++ t) style hinting width None
        = Some (Ok widths) ->
        exists layout cd lbd,
          create_layout E fuel (lstrip t) style hinting width
          = Some (Ok (layout, cd, lbd))
          /\ List.length widths = get_line_count E layout
          /\ widths
             = map (fun line => units_to_double (logical_width line))
                 (first_line_of E layout :: rest_lines E layout)).
Proof.
  intros Hws. unfold line_widths. cbn [skipn].
  rewrite (lstrip_whitespace t Hws). split; [reflexivity |].
  intros widths.
  destruct (create_layout E fuel (lstrip t) style hinting width)
    as [[[[layout cd] lbd] | e] |]; cbn [bind]; try discriminate.
  intros H. injection H as <-.
  exists layout, cd, lbd. split; [reflexivity |].
  split; [| reflexivity].
  unfold get_line_count. cbn [map List.length]. now rewrite length_map.
Qed.

Lemma line_widths_strips_leading_whitespace_witness :
  line_widths Mono.engine 5 (text_of_string "  " ++ txt_aa_bb) Mono.style
    false (Some 2%Q) None
  = line_widths Mono.engine 5 txt_aa_bb Mono.style false (Some 2%Q) None.
Proof.
  assert (Hws : Forall (fun c => is_whitespace c = true)
                  (text_of_string "  ")) by (repeat constructor).
  apply (proj1 (@line_widths_strips_leading_whitespace Mono.engine 5
                  (text_of_string "  ") txt_aa_bb Mono.style false
                  (Some 2%Q) Hws)).
Defined.
